(** * The interceptor catalogue of the HTTP Toolkit UI

    A shallow embedding of [src/model/interceptors.ts]: the static table
    [INTERCEPT_OPTIONS] and the function [getInterceptOptions], which merges
    the table with the interceptor statuses reported by the server.

    JavaScript objects are finite maps from property names to values
    ([gmap string value]); dictionaries that are iterated ([INTERCEPT_OPTIONS]
    and the result of [_.mapValues]) are association lists in insertion
    order.  The two libraries the module imports are modelled as far as the
    module uses them: lodash ([keyBy], [mapValues], [assign], [defaults]) by
    definitions, and [semver.satisfies] as a parameter that may throw. *)

From Stdlib Require Import String Ascii List NArith Bool.
From stdpp Require Import base option list strings gmap fin_maps.

Local Open Scope string_scope.
Local Open Scope list_scope.

(** ** Completions: a call returns a value or throws *)

Inductive completion (A : Type) : Type :=
| Normal (a : A)
| Throw (error : string).
Arguments Normal {A} a.
Arguments Throw {A} error.

Global Instance completion_ret : MRet completion := fun A a => Normal a.

Global Instance completion_bind : MBind completion := fun A B k c =>
  match c with
  | Normal a => k a
  | Throw e => Throw e
  end.

Definition returns {A} (c : completion A) : Prop := exists a, c = Normal a.

(** ** JavaScript values and objects *)

(** [IconProps] values are defined in [../icons], outside this module; the
    table only refers to members of [SourceIcons] and, once, to
    [_.defaults({ color: ... }, SourceIcons.Terminal)].  They are kept as
    references. *)
Inductive IconProps : Type :=
| SourceIcons (member : string)
| defaults (own : list (string * string)) (source : IconProps).

(** The configuration dialogs imported from [../components/intercept/config]. *)
Inductive InterceptorCustomUiConfig : Type :=
| ManualInterceptCustomUi
| ExistingTerminalCustomUi
| ElectronCustomUi
| AndroidCustomUi.

(** The argument of a [checkRequirements] function.  [interceptorVersion]
    is declared [string], but [getInterceptOptions] passes [undefined] when
    there is no server interceptor; [serverVersion] is optional. *)
Record CheckOptions : Type := {
  interceptorVersion : option string;
  featureFlags : list string;
  serverVersion : option string
}.

Inductive value : Type :=
| VNull
| VBool (b : bool)
| VNumber (n : Z)
| VString (s : string)
| VStrings (l : list string)
| VIconProps (i : IconProps)
| VUiConfig (u : InterceptorCustomUiConfig)
| VFunction (f : CheckOptions -> completion bool).

(** An object is the finite map of its own enumerable properties. *)
Abbreviation object := (gmap string value).

(** A dictionary that is iterated: keys in insertion order. *)
Abbreviation Dictionary A := (list (string * A)).

Fixpoint get {A} (key : string) (d : Dictionary A) : option A :=
  match d with
  | [] => None
  | (k, a) :: d' => if String.eqb k key then Some a else get key d'
  end.

Definition keys {A} (d : Dictionary A) : list string := map fst d.

(** ** The data model of the module *)

Record InterceptorConfig : Type := {
  name : string;
  description : string;
  iconProps : IconProps;
  tags : list string;
  inProgress : option bool;
  clientOnly : bool;            (* [clientOnly?: true]: [false] is "not set" *)
  checkRequirements : option (CheckOptions -> completion bool);
  uiConfig : option InterceptorCustomUiConfig
}.

(** [ServerInterceptor] is declared in [../services/server-api]: the status
    the server reports for one interceptor.  [extra] holds whatever other
    properties the payload carries; the four declared properties take their
    values from the record. *)
Record ServerInterceptor : Type := {
  id : string;
  version : string;
  isActive : bool;
  isActivable : bool;
  extra : object
}.

(** A property that is set only when the optional field is. *)
Definition optional (key : string) (v : option value) : object :=
  match v with
  | Some x => {[ key := x ]}
  | None => ∅
  end.

(** The own properties of a table entry, as its object literal lists them. *)
Definition config_properties (c : InterceptorConfig) : object :=
  {[ "name" := VString (name c);
     "description" := VString (description c);
     "iconProps" := VIconProps (iconProps c);
     "tags" := VStrings (tags c) ]}
  ∪ optional "inProgress" (VBool <$> inProgress c)
  ∪ optional "clientOnly" (if clientOnly c then Some (VBool true) else None)
  ∪ optional "checkRequirements" (VFunction <$> checkRequirements c)
  ∪ optional "uiConfig" (VUiConfig <$> uiConfig c).

(** The own properties of a server status. *)
Definition server_properties (s : ServerInterceptor) : object :=
  {[ "id" := VString (id s);
     "version" := VString (version s);
     "isActive" := VBool (isActive s);
     "isActivable" := VBool (isActivable s) ]}
  ∪ extra s.

(** ** lodash *)

(** [_.keyBy(array, 'id')]: the elements are assigned to the result one
    after the other under their [id], so a later element replaces an
    earlier one with the same id. *)
Definition keyBy (array : list ServerInterceptor) : gmap string ServerInterceptor :=
  foldl (fun result s => <[ id s := s ]> result) ∅ array.

(** [_.assign(target, ...sources)]: the properties of each source are
    written to the target in turn, the later sources overwriting. *)
Definition assign (target : object) (sources : list object) : object :=
  foldl (fun acc source => source ∪ acc) target sources.
Arguments assign : simpl never.

(** [_.mapValues(object, iteratee)]: a new object with the same keys, in the
    same order, the iteratee being called with the value and the key.  A call
    that throws ends the iteration. *)
Fixpoint mapValues {A B} (obj : Dictionary A) (iteratee : A -> string -> completion B)
    : completion (Dictionary B) :=
  match obj with
  | [] => Normal []
  | (key, a) :: rest =>
      b ← iteratee a key;
      result ← mapValues rest iteratee;
      mret ((key, b) :: result)
  end.

(** [array.includes(x)] on an array of strings. *)
Definition includes (array : list string) (x : string) : bool :=
  existsb (String.eqb x) array.

(** ** semver

    [semver.satisfies] comes from the npm package semver.  The module is
    verified against any implementation of it ([satisfies] below is a
    parameter of the development); this instance, used to run the module on
    concrete inputs, covers plain [MAJOR.MINOR.PATCH] versions and caret
    ranges [^MAJOR.MINOR.PATCH], which is what the checks of the table are
    written with.  It answers [false] on an absent or empty version and on
    whatever it cannot parse, and never throws. *)
Module Semver.

Definition digit (c : ascii) : option N :=
  let n := N_of_ascii c in
  if ((48 <=? n) && (n <=? 57))%N then Some (n - 48)%N else None.

Fixpoint digits (acc : N) (s : string) : option N :=
  match s with
  | EmptyString => Some acc
  | String c rest =>
      match digit c with
      | Some d => digits (10 * acc + d)%N rest
      | None => None
      end
  end.

(** A numeric identifier: ["0"], or digits that do not start with a zero. *)
Definition numeric (s : string) : option N :=
  match s with
  | EmptyString => None
  | String "0"%char EmptyString => Some 0%N
  | String "0"%char _ => None
  | _ => digits 0 s
  end.

(** The parts of [s] between the dots. *)
Fixpoint split_dots (s : string) : list string :=
  match s with
  | EmptyString => [EmptyString]
  | String "."%char rest => EmptyString :: split_dots rest
  | String c rest =>
      match split_dots rest with
      | part :: parts => String c part :: parts
      | [] => [String c EmptyString]
      end
  end.

Definition parse (s : string) : option (N * N * N) :=
  match split_dots s with
  | [a; b; c] =>
      match numeric a, numeric b, numeric c with
      | Some major, Some minor, Some patch => Some (major, minor, patch)
      | _, _, _ => None
      end
  | _ => None
  end.

Definition ltb (v w : N * N * N) : bool :=
  let '(a, b, c) := v in
  let '(a', b', c') := w in
  ((a <? a') || ((a =? a') && ((b <? b') || ((b =? b') && (c <? c')))))%N.

Definition leb (v w : N * N * N) : bool := negb (ltb w v).

(** [^a.b.c] allows the changes that keep the leftmost non-zero part. *)
Definition caret_upper (v : N * N * N) : N * N * N :=
  let '(a, b, c) := v in
  if (0 <? a)%N then (a + 1, 0, 0)%N
  else if (0 <? b)%N then (0, b + 1, 0)%N
  else (0, 0, c + 1)%N.

Definition parse_caret (range : string) : option (N * N * N) :=
  match range with
  | String "^"%char rest => parse rest
  | _ => None
  end.

Definition satisfiesb (version : option string) (range : string) : bool :=
  match version ≫= parse with
  | Some w =>
      match parse_caret range with
      | Some low => leb low w && ltb w (caret_upper low)
      | None => false
      end
  | None => false
  end.

Definition satisfies (version : option string) (range : string) : completion bool :=
  Normal (satisfiesb version range).

End Semver.

(** Two normal completions of the same call carry the same value. *)
Ltac same_result H H' :=
  rewrite H in H'; injection H' as <-.

(** Every call of the instance returns. *)
Ltac semver_returns :=
  split; [eexists; reflexivity | intros; eexists; reflexivity].

(** ** The module *)

Definition BROWSER_TAGS := ["browsers"; "web page"; "web app"; "javascript"].
Definition MOBILE_TAGS := ["mobile"; "phone"; "app"].
Definition ANDROID_TAGS :=
  ["samsung"; "galaxy"; "nokia"; "lg"; "android"; "google"; "motorola"].
Definition IOS_TAGS := ["apple"; "ios"; "iphone"; "ipad"].
Definition DOCKER_TAGS := ["bridge"; "services"; "images"].

Definition MANUAL_INTERCEPT_ID := "manual-setup".

(** ** Vocabulary of the statements *)

(** [o] is [base] plus exactly the fields [fields]: a listed property has
    the listed value, every other property is the one of [base], if any. *)
Definition with_fields (base : object) (fields : Dictionary value) (o : object) : Prop :=
  forall k, o !! k = match get k fields with
                     | Some v => Some v
                     | None => base !! k
                     end.

(** [o] is [base], overwritten by the properties of [server], overwritten
    by the fields [fields]: the later layer wins. *)
Definition overlaid (base server : object) (fields : Dictionary value) (o : object) : Prop :=
  forall k, o !! k = match get k fields with
                     | Some v => Some v
                     | None =>
                         match server !! k with
                         | Some v => Some v
                         | None => base !! k
                         end
                     end.

(** The fields the three branches of [getInterceptOptions] set. *)
Definition unsupported_fields (i : string) : Dictionary value :=
  [("id", VString i); ("isSupported", VBool false);
   ("isActive", VBool false); ("isActivable", VBool false)].

Definition client_only_fields (i : string) : Dictionary value :=
  [("id", VString i); ("isSupported", VBool true);
   ("isActive", VBool false); ("isActivable", VBool true)].

Definition supported_fields (i : string) : Dictionary value :=
  [("id", VString i); ("isSupported", VBool true)].

(** The statuses of [array] that carry the id [i], in the order of the array. *)
Definition with_id (i : string) (array : list ServerInterceptor) : list ServerInterceptor :=
  filter (fun s => id s = i) array.

(** A server status with no further properties. *)
Definition status (i v : string) (active activable : bool) : ServerInterceptor :=
  {| id := i; version := v; isActive := active; isActivable := activable; extra := ∅ |}.

(** [x || ''] for an optional string. *)
Definition or_empty (x : option string) : string := default "" x.

Section Interceptors.

(** [semver.satisfies(version, range)]; the version is [None] when the
    caller passes [undefined].  The call may throw. *)
Variable satisfies : option string -> string -> completion bool.

(** The range exported by [../services/service-versions]. *)
Variable DETAILED_CONFIG_RANGE : string.

(** An entry that sets only the four required fields. *)
Definition entry (name description : string) (iconProps : IconProps)
    (tags : list string) : InterceptorConfig :=
  {| name := name; description := description; iconProps := iconProps;
     tags := tags; inProgress := None; clientOnly := false;
     checkRequirements := None; uiConfig := None |}.

Definition INTERCEPT_OPTIONS : Dictionary InterceptorConfig := [
  ("docker-all",
    entry "All Docker Containers" "Intercept all local Docker traffic"
      (SourceIcons "Docker") DOCKER_TAGS);
  ("docker-specific",
    entry "Specific Docker Containers"
      "Intercept all traffic from specific Docker containers"
      (SourceIcons "Docker") DOCKER_TAGS);
  ("fresh-chrome",
    entry "Fresh Chrome" "Open a preconfigured fresh Chrome window"
      (SourceIcons "Chrome") BROWSER_TAGS);
  ("fresh-firefox",
    entry "Fresh Firefox" "Open a preconfigured fresh Firefox window"
      (SourceIcons "Firefox") BROWSER_TAGS);
  ("fresh-safari",
    entry "Fresh Safari" "Open a preconfigured fresh Safari window"
      (SourceIcons "Safari") BROWSER_TAGS);
  ("fresh-edge",
    entry "Fresh Edge" "Open a preconfigured fresh Edge window"
      (SourceIcons "Edge") BROWSER_TAGS);
  ("fresh-terminal",
    entry "Fresh Terminal"
      "Open a new terminal preconfigured to intercept all launched processes"
      (SourceIcons "Terminal")
      ["terminal"; "command line"; "cli"; "bash"; "cmd"; "shell"; "php";
       "ruby"; "node"; "js"]);
  ("existing-terminal",
    {| name := "Existing Terminal";
       description :=
         "Intercept all launched processes from one of your existing terminal windows";
       iconProps := defaults [("color", "#dd44dd")] (SourceIcons "Terminal");
       uiConfig := Some ExistingTerminalCustomUi;
       tags := ["terminal"; "command line"; "cli"; "bash"; "cmd"; "shell";
                "php"; "ruby"; "node"; "js"];
       inProgress := None; clientOnly := false; checkRequirements := None |});
  ("electron",
    {| name := "Electron Application";
       description :=
         "Launch an Electron application with all its traffic intercepted";
       iconProps := SourceIcons "Electron";
       uiConfig := Some ElectronCustomUi;
       checkRequirements := Some (fun options =>
         satisfies (interceptorVersion options) "^1.0.1");
       tags := ["electron"; "desktop"; "postman"];
       inProgress := None; clientOnly := false |});
  ("android-device",
    {| name := "An Android device";
       description :=
         "Intercept all HTTP traffic from an Android device on your network";
       iconProps := SourceIcons "Android";
       checkRequirements := Some (fun options =>
         inRange ← satisfies (Some (or_empty (serverVersion options)))
                     DETAILED_CONFIG_RANGE;
         mret (inRange && includes (featureFlags options) "android"));
       clientOnly := true;
       uiConfig := Some AndroidCustomUi;
       tags := MOBILE_TAGS ++ ANDROID_TAGS;
       inProgress := None |});
  ("ios-device",
    entry "An iOS device"
      "Intercept all HTTP traffic from an iOS device on your network"
      (SourceIcons "iOS") (MOBILE_TAGS ++ IOS_TAGS));
  ("network-device",
    entry "A device on your network"
      "Intercept all HTTP traffic from another device on your network"
      (SourceIcons "Network")
      (MOBILE_TAGS ++ IOS_TAGS ++ ANDROID_TAGS ++ ["lan"; "arp"; "wifi"]));
  ("virtualbox-machine",
    entry "A virtualbox VM" "Intercept all traffic from a Virtualbox VM"
      (SourceIcons "Desktop") ["virtual machine"; "vagrant"]);
  ("system-proxy",
    entry "Everything" "Intercept all HTTP traffic on this machine"
      (SourceIcons "Desktop") ["local"; "machine"; "system"; "me"]);
  (MANUAL_INTERCEPT_ID,
    {| name := "Anything";
       description :=
         "Manually configure any source using the proxy settings and CA certificate";
       iconProps := SourceIcons "Unknown";
       clientOnly := true;
       uiConfig := Some ManualInterceptCustomUi;
       tags := [];
       inProgress := None; checkRequirements := None |})
].

(** The function that [getInterceptOptions] maps over the table.  The
    condition of its first branch is [A || B]: [B], and with it the call
    of [checkRequirements], is evaluated only when [A] is false.
    [serverInterceptors[id]] is an object when the index has the id, hence
    truthy, and [undefined] otherwise: no id of the table names a member of
    [Object.prototype].  [_.assign] skips a source that is [undefined]. *)
Definition resolveOption (serverInterceptors : gmap string ServerInterceptor)
    (serverVersion : option string) (featureFlags : list string)
    (config : InterceptorConfig) (id : string) : completion object :=
  unusable ←
    (if negb (clientOnly config) && negb (bool_decide (is_Some (serverInterceptors !! id)))
     then mret true
     else
       match checkRequirements config with
       | Some check =>
           met ← check {| interceptorVersion := version <$> serverInterceptors !! id;
                          featureFlags := featureFlags;
                          serverVersion := serverVersion |};
           mret (negb met)
       | None => mret false
       end);
  if unusable : bool then
    mret (assign ∅ [
      config_properties config;
      {[ "id" := VString id;
         "isSupported" := VBool false;
         "isActive" := VBool false;
         "isActivable" := VBool false ]} ])
  else if clientOnly config then
    mret (assign ∅ [
      config_properties config;
      {[ "id" := VString id;
         "isSupported" := VBool true;
         "isActive" := VBool false;
         "isActivable" := VBool true ]} ])
  else
    let serverInterceptor := serverInterceptors !! id in
    mret (assign ∅ [
      config_properties config;
      from_option server_properties ∅ serverInterceptor;
      {[ "id" := VString id;
         "isSupported" := VBool true ]} ]).

Definition getInterceptOptions (serverInterceptorArray : list ServerInterceptor)
    (serverVersion : option string) (featureFlags : option (list string))
    : completion (Dictionary object) :=
  let featureFlags := default [] featureFlags in
  let serverInterceptors := keyBy serverInterceptorArray in
  mapValues INTERCEPT_OPTIONS (fun option id =>
    resolveOption serverInterceptors serverVersion featureFlags option id).

(** The two calls of [semver.satisfies] that [getInterceptOptions] makes on
    an input return normally: the one of the [android-device] check, made on
    every input, and the one of the [electron] check, made when the server
    reports an [electron] interceptor. *)
Definition semver_calls_return (serverInterceptorArray : list ServerInterceptor)
    (serverVersion : option string) : Prop :=
  returns (satisfies (Some (or_empty serverVersion)) DETAILED_CONFIG_RANGE) /\
  forall s, keyBy serverInterceptorArray !! "electron" = Some s ->
    returns (satisfies (Some (version s)) "^1.0.1").

(** What every release of semver does first in [Range.test]:
    [if (!version) return false]. *)
Definition rejects_missing_version : Prop :=
  forall range,
    satisfies None range = Normal false /\ satisfies (Some "") range = Normal false.

(** The options a check is called with for the descriptor of id [i]. *)
Definition check_options (serverInterceptorArray : list ServerInterceptor)
    (serverVersion : option string) (featureFlags : option (list string))
    (i : string) : CheckOptions :=
  {| interceptorVersion := version <$> keyBy serverInterceptorArray !! i;
     featureFlags := default [] featureFlags;
     serverVersion := serverVersion |}.

(** ** Properties of the lodash functions *)

Lemma bind_normal {A B} (c : completion A) (k : A -> completion B) (b : B) :
  c ≫= k = Normal b <-> exists a, c = Normal a /\ k a = Normal b.
Proof.
  destruct c as [a|e]; simpl.
  - split; [eauto | intros (a' & [= <-] & Hk); exact Hk].
  - split; [discriminate | intros (a' & [=] & _)].
Qed.

Lemma bind_throw {A B} (c : completion A) (k : A -> completion B) (e : string) :
  c ≫= k = Throw e <-> c = Throw e \/ exists a, c = Normal a /\ k a = Throw e.
Proof.
  destruct c as [a|e']; simpl.
  - split; [eauto | intros [[=] | (a' & [= <-] & Hk)]; exact Hk].
  - split; [intros [= ->]; auto | intros [[= ->] | (a' & [=] & _)]; reflexivity].
Qed.

Lemma assign_two (a b : object) (k : string) :
  assign ∅ [a; b] !! k = match b !! k with Some v => Some v | None => a !! k end.
Proof.
  unfold assign; simpl. rewrite !lookup_union, lookup_empty.
  destruct (b !! k), (a !! k); reflexivity.
Qed.

Lemma assign_three (a b c : object) (k : string) :
  assign ∅ [a; b; c] !! k =
  match c !! k with
  | Some v => Some v
  | None => match b !! k with Some v => Some v | None => a !! k end
  end.
Proof.
  unfold assign; simpl. rewrite !lookup_union, lookup_empty.
  destruct (c !! k), (b !! k), (a !! k); reflexivity.
Qed.

(** An object literal read as the list of its fields. *)
Lemma literal_four (k1 k2 k3 k4 : string) (v1 v2 v3 v4 : value) (k : string) :
  ({[ k1 := v1; k2 := v2; k3 := v3; k4 := v4 ]} : object) !! k =
  get k [(k1, v1); (k2, v2); (k3, v3); (k4, v4)].
Proof.
  simpl. rewrite !lookup_insert, lookup_singleton.
  repeat case_decide; subst;
    repeat match goal with
    | |- context [String.eqb ?a ?b] => destruct (String.eqb_spec a b)
    end; congruence.
Qed.

Lemma literal_two (k1 k2 : string) (v1 v2 : value) (k : string) :
  ({[ k1 := v1; k2 := v2 ]} : object) !! k = get k [(k1, v1); (k2, v2)].
Proof.
  simpl. rewrite !lookup_insert, lookup_singleton.
  repeat case_decide; subst;
    repeat match goal with
    | |- context [String.eqb ?a ?b] => destruct (String.eqb_spec a b)
    end; congruence.
Qed.

Lemma with_fields_unique (base : object) (fields : Dictionary value) (o o' : object) :
  with_fields base fields o -> with_fields base fields o' -> o = o'.
Proof. intros H H'. apply map_eq. intros k. rewrite H, H'. reflexivity. Qed.

(** [_.mapValues] keeps the keys and their order. *)
Lemma mapValues_keys {A B} (obj : Dictionary A) (f : A -> string -> completion B)
    (result : Dictionary B) :
  mapValues obj f = Normal result -> keys result = keys obj.
Proof.
  revert result. induction obj as [|[key a] rest IH]; intros result; simpl.
  - intros [= <-]. reflexivity.
  - intros (b & _ & H)%bind_normal.
    apply bind_normal in H as (r & Hr & [= <-]).
    simpl. f_equal. apply IH, Hr.
Qed.

(** The value under a key is what the iteratee returned for it. *)
Lemma mapValues_get {A B} (obj : Dictionary A) (f : A -> string -> completion B)
    (result : Dictionary B) (key : string) (a : A) :
  mapValues obj f = Normal result -> get key obj = Some a ->
  exists b, f a key = Normal b /\ get key result = Some b.
Proof.
  revert result. induction obj as [|[k a'] rest IH]; intros result; simpl.
  - discriminate.
  - intros (b & Hb & H)%bind_normal.
    apply bind_normal in H as (r & Hr & [= <-]). simpl.
    destruct (String.eqb_spec k key) as [->|Hne].
    + intros [= ->]. eauto.
    + intros Hget. apply (IH r Hr Hget).
Qed.

(** [_.mapValues] returns exactly when every call of the iteratee does. *)
Lemma mapValues_returns {A B} (obj : Dictionary A) (f : A -> string -> completion B) :
  returns (mapValues obj f) <-> Forall (fun entry => returns (f entry.2 entry.1)) obj.
Proof.
  induction obj as [|[key a] rest IH]; simpl.
  - split; [constructor | intros _; eexists; reflexivity].
  - split.
    + intros [result (b & Hb & H)%bind_normal].
      apply bind_normal in H as (r & Hr & _).
      constructor; [exists b; exact Hb | apply IH; exists r; exact Hr].
    + intros H. apply Forall_cons in H as [[b Hb] [r Hr]%IH]. simpl in Hb.
      exists ((key, b) :: r). rewrite Hb. simpl. rewrite Hr. reflexivity.
Qed.

(** An exception of [_.mapValues] is an exception of a call of the iteratee. *)
Lemma mapValues_throw {A B} (obj : Dictionary A) (f : A -> string -> completion B)
    (e : string) :
  mapValues obj f = Throw e -> exists key a, In (key, a) obj /\ f a key = Throw e.
Proof.
  induction obj as [|[key a] rest IH]; simpl.
  - discriminate.
  - intros [H | (b & Hb & H)]%bind_throw.
    + exists key, a. auto.
    + apply bind_throw in H as [H | (r & _ & [=])].
      destruct (IH H) as (key' & a' & Hin & Hf). exists key', a'. auto.
Qed.

(** [_.keyBy]: under each id, the last status of the array that carries it. *)
Lemma keyBy_fold (array : list ServerInterceptor) (m : gmap string ServerInterceptor)
    (i : string) :
  foldl (fun result s => <[ id s := s ]> result) m array !! i =
  match last (with_id i array) with
  | Some s => Some s
  | None => m !! i
  end.
Proof.
  revert m. induction array as [|s rest IH]; intros m; simpl.
  - reflexivity.
  - rewrite IH. unfold with_id. rewrite filter_cons.
    fold (with_id i rest). case_decide as Hid.
    + destruct (with_id i rest) as [|s' l] eqn:E; simpl.
      * subst i. apply lookup_insert_eq.
      * destruct (last (s' :: l)) eqn:El; [reflexivity|].
        apply last_None in El. discriminate.
    + destruct (last (with_id i rest)); [reflexivity|].
      apply lookup_insert_ne, Hid.
Qed.

Lemma keyBy_last (array : list ServerInterceptor) (i : string) :
  keyBy array !! i = last (with_id i array).
Proof.
  unfold keyBy. rewrite keyBy_fold, lookup_empty.
  destruct (last (with_id i array)); reflexivity.
Qed.

Lemma keyBy_None (array : list ServerInterceptor) (i : string) :
  keyBy array !! i = None <-> forall s, s ∈ array -> id s <> i.
Proof.
  rewrite keyBy_last, last_None. unfold with_id. split.
  - intros H s Hs Hid.
    assert (s ∈ filter (fun s => id s = i) array) as Hin
      by (apply list_elem_of_filter; auto).
    rewrite H in Hin. inversion Hin.
  - intros H. destruct (filter _ array) as [|s l] eqn:E; [reflexivity|].
    assert (s ∈ filter (fun s => id s = i) array) as Hin by (rewrite E; left).
    apply list_elem_of_filter in Hin as [Hid Hs]. destruct (H s Hs Hid).
Qed.

Lemma keyBy_id (array : list ServerInterceptor) (i : string) (s : ServerInterceptor) :
  keyBy array !! i = Some s -> id s = i /\ s ∈ array.
Proof.
  rewrite keyBy_last. intros H.
  apply last_Some_elem_of, list_elem_of_filter in H. exact H.
Qed.

(** ** The function mapped over the table *)

Ltac read_fields :=
  let k := fresh "k" in
  intros k;
  rewrite ?assign_two, ?assign_three, ?literal_four, ?literal_two;
  reflexivity.

Section ResolveOption.

Variable servers : gmap string ServerInterceptor.
Variable sv : option string.
Variable flags : list string.
Variable config : InterceptorConfig.
Variable i : string.

Local Abbreviation options :=
  {| interceptorVersion := version <$> servers !! i;
     featureFlags := flags;
     serverVersion := sv |}.

Local Abbreviation resolved := (resolveOption servers sv flags config i).

(** The requirement check, if there is one, answers [true]. *)
Local Abbreviation requirements_met :=
  (match checkRequirements config with
   | Some check => check options = Normal true
   | None => True
   end).

(** Every result comes from one of the three branches. *)
Lemma resolveOption_cases (o : object) :
  resolved = Normal o ->
  (((clientOnly config = false /\ servers !! i = None) \/
    exists check, checkRequirements config = Some check /\
      check options = Normal false) /\
   with_fields (config_properties config) (unsupported_fields i) o) \/
  (clientOnly config = true /\ requirements_met /\
   with_fields (config_properties config) (client_only_fields i) o) \/
  (clientOnly config = false /\ requirements_met /\
   exists s, servers !! i = Some s /\
     overlaid (config_properties config) (server_properties s) (supported_fields i) o).
Proof.
  unfold resolveOption.
  destruct (clientOnly config) eqn:Hc; simpl.
  - destruct (checkRequirements config) as [check|]; simpl.
    + destruct (check options) as [[]|e] eqn:Hmet; simpl; intros [= <-].
      * right; left. repeat split. read_fields.
      * left. split; [right; eauto | read_fields].
    + intros [= <-]. right; left. repeat split. read_fields.
  - destruct (servers !! i) as [s|] eqn:Hs; simpl.
    + destruct (checkRequirements config) as [check|]; simpl.
      * destruct (check _) as [[]|e] eqn:Hmet; simpl; intros [= <-].
        -- right; right. repeat split. exists s. split; [reflexivity | read_fields].
        -- left. split; [right; eauto | read_fields].
      * intros [= <-]. right; right. repeat split.
        exists s. split; [reflexivity | read_fields].
    + intros [= <-]. left. split; [left; auto | read_fields].
Qed.

(** The call returns unless the check is called and throws. *)
Lemma resolveOption_returns :
  returns resolved <->
  (clientOnly config = false /\ servers !! i = None) \/
  match checkRequirements config with
  | Some check => returns (check options)
  | None => True
  end.
Proof.
  unfold resolveOption.
  destruct (clientOnly config) eqn:Hc; simpl.
  - destruct (checkRequirements config) as [check|]; simpl.
    + destruct (check options) as [[]|e]; simpl; split;
        try (intros _; eexists; reflexivity);
        try (intros _; right; eexists; reflexivity).
      * intros [o [=]].
      * intros [[[=] _] | [b [=]]].
    + split; [auto | intros _; eexists; reflexivity].
  - destruct (servers !! i) as [s|] eqn:Hs; simpl.
    + destruct (checkRequirements config) as [check|]; simpl.
      * destruct (check _) as [[]|e]; simpl; split;
          try (intros _; eexists; reflexivity);
          try (intros _; right; eexists; reflexivity).
        -- intros [o [=]].
        -- intros [[_ [=]] | [b [=]]].
      * split; [auto | intros _; eexists; reflexivity].
    + split; [auto | intros _; eexists; reflexivity].
Qed.

(** An exception is the one of the check, which was called. *)
Lemma resolveOption_throw (e : string) :
  resolved = Throw e ->
  exists check, checkRequirements config = Some check /\
    (clientOnly config = true \/ is_Some (servers !! i)) /\
    check options = Throw e.
Proof.
  unfold resolveOption.
  destruct (clientOnly config) eqn:Hc; simpl.
  - destruct (checkRequirements config) as [check|]; simpl.
    + destruct (check options) as [[]|e'] eqn:Hmet; simpl; try discriminate.
      intros [= ->]. exists check. auto.
    + discriminate.
  - destruct (servers !! i) as [s|] eqn:Hs; simpl.
    + destruct (checkRequirements config) as [check|]; simpl.
      * destruct (check _) as [[]|e'] eqn:Hmet; simpl; try discriminate.
        intros [= ->]. exists check. eauto.
      * discriminate.
    + discriminate.
Qed.

(** First branch, by its first disjunct: the check is not called. *)
Lemma resolveOption_absent :
  clientOnly config = false -> servers !! i = None ->
  exists o, resolved = Normal o /\
    with_fields (config_properties config) (unsupported_fields i) o.
Proof.
  intros Hc Hs. unfold resolveOption. rewrite Hc, Hs. simpl.
  eexists. split; [reflexivity | read_fields].
Qed.

(** First branch, by its second disjunct. *)
Lemma resolveOption_unmet (check : CheckOptions -> completion bool) :
  checkRequirements config = Some check -> check options = Normal false ->
  exists o, resolved = Normal o /\
    with_fields (config_properties config) (unsupported_fields i) o.
Proof.
  intros Hcheck Hfalse. unfold resolveOption.
  destruct (negb (clientOnly config) && _) eqn:Hfirst; simpl.
  - eexists. split; [reflexivity | read_fields].
  - rewrite Hcheck, Hfalse. simpl.
    eexists. split; [reflexivity | read_fields].
Qed.

(** Second branch. *)
Lemma resolveOption_client_only :
  clientOnly config = true -> requirements_met ->
  exists o, resolved = Normal o /\
    with_fields (config_properties config) (client_only_fields i) o.
Proof.
  intros Hc Hmet. unfold resolveOption. rewrite Hc. simpl.
  destruct (checkRequirements config) as [check|]; [rewrite Hmet|]; simpl;
    (eexists; split; [reflexivity | read_fields]).
Qed.

(** Third branch. *)
Lemma resolveOption_server (s : ServerInterceptor) :
  clientOnly config = false -> servers !! i = Some s ->
  requirements_met ->
  exists o, resolved = Normal o /\
    overlaid (config_properties config) (server_properties s) (supported_fields i) o.
Proof.
  intros Hc Hs Hmet. unfold resolveOption. rewrite Hc.
  rewrite Hs in Hmet |- *. simpl in Hmet |- *.
  destruct (checkRequirements config) as [check|]; [rewrite Hmet|]; simpl;
    (eexists; split; [reflexivity | read_fields]).
Qed.

End ResolveOption.

(** ** The table and the function *)

Lemma returns_bind {A B} (c : completion A) (k : A -> completion B) :
  returns (c ≫= k) -> returns c.
Proof. intros [b (a & Ha & _)%bind_normal]. exists a. exact Ha. Qed.

(** The entry of the result under a key of the table is what
    [resolveOption] returned for the descriptor under that key. *)
Lemma getInterceptOptions_entry (arr : list ServerInterceptor) (sv : option string)
    (ff : option (list string)) (m : Dictionary object) (i : string)
    (d : InterceptorConfig) :
  getInterceptOptions arr sv ff = Normal m ->
  get i INTERCEPT_OPTIONS = Some d ->
  exists o, resolveOption (keyBy arr) sv (default [] ff) d i = Normal o /\
    get i m = Some o.
Proof.
  intros Hm Hd. exact (mapValues_get INTERCEPT_OPTIONS _ m i d Hm Hd).
Qed.

(** [getInterceptOptions] returns exactly when the calls of
    [semver.satisfies] it makes do. *)
Lemma getInterceptOptions_returns (arr : list ServerInterceptor) (sv : option string)
    (ff : option (list string)) :
  returns (getInterceptOptions arr sv ff) <-> semver_calls_return arr sv.
Proof.
  unfold getInterceptOptions. rewrite mapValues_returns. split.
  - intros H. rewrite Forall_lookup in H. split.
    + specialize (H 9%nat _ eq_refl). cbn beta iota delta [fst snd] in H.
      apply resolveOption_returns in H as [[[=] _] | H]. simpl in H.
      exact (returns_bind _ _ H).
    + intros s Hs. specialize (H 8%nat _ eq_refl). cbn beta iota delta [fst snd] in H.
      apply resolveOption_returns in H as [[_ H] | H]; [congruence|].
      simpl in H. rewrite Hs in H. exact H.
  - intros [[b Hb] He]. unfold INTERCEPT_OPTIONS.
    repeat (apply Forall_cons; split); try solve [constructor];
      cbn beta iota delta [fst snd]; apply resolveOption_returns; simpl; auto.
    + destruct (keyBy arr !! "electron") as [s|] eqn:Hs; [right | left; auto].
      exact (He s eq_refl).
    + right. rewrite Hb. simpl. eexists. reflexivity.
Qed.

(** An exception of [getInterceptOptions] is an exception of one of those
    two calls. *)
Lemma getInterceptOptions_throw (arr : list ServerInterceptor) (sv : option string)
    (ff : option (list string)) (e : string) :
  getInterceptOptions arr sv ff = Throw e ->
  satisfies (Some (or_empty sv)) DETAILED_CONFIG_RANGE = Throw e \/
  exists s, keyBy arr !! "electron" = Some s /\
    satisfies (Some (version s)) "^1.0.1" = Throw e.
Proof.
  intros (i & d & Hin & H)%mapValues_throw.
  apply resolveOption_throw in H as (check & Hcheck & Hcalled & Hthrow).
  unfold INTERCEPT_OPTIONS in Hin. simpl in Hin.
  repeat (destruct Hin as [[= <- <-] | Hin]; try discriminate Hcheck);
    try contradiction; injection Hcheck as <-.
  - right. destruct Hcalled as [[=] | [s Hs]]. exists s. split; [exact Hs|].
    simpl in Hthrow. rewrite Hs in Hthrow. exact Hthrow.
  - left. simpl in Hthrow. apply bind_throw in Hthrow as [H | (b & _ & [=])].
    exact H.
Qed.

Lemma get_is_Some {A} (i : string) (d : Dictionary A) :
  is_Some (get i d) <-> i ∈ keys d.
Proof.
  induction d as [|[k a] d IH]; simpl.
  - split; [intros [x [=]] | intros H; inversion H].
  - rewrite elem_of_cons, <- IH.
    destruct (String.eqb_spec k i) as [->|Hne]; split; eauto.
    intros [-> | H]; [contradiction | exact H].
Qed.

Lemma get_None {A} (i : string) (d : Dictionary A) :
  i ∉ keys d -> get i d = None.
Proof.
  intros H. destruct (get i d) eqn:E; [|reflexivity].
  destruct H. apply get_is_Some. eauto.
Qed.

Lemma mapValues_get_inv {A B} (obj : Dictionary A) (f : A -> string -> completion B)
    (result : Dictionary B) (key : string) (b : B) :
  mapValues obj f = Normal result -> get key result = Some b ->
  exists a, get key obj = Some a /\ f a key = Normal b.
Proof.
  intros Hm Hb.
  assert (is_Some (get key obj)) as [a Ha].
  { apply get_is_Some. rewrite <- (mapValues_keys _ _ _ Hm).
    apply get_is_Some. eauto. }
  destruct (mapValues_get _ _ _ _ _ Hm Ha) as (b' & Hf & Hb').
  exists a. split; [exact Ha | congruence].
Qed.

Lemma server_properties_lookup (s : ServerInterceptor) (k : string) :
  server_properties s !! k =
  match get k [("id", VString (id s)); ("version", VString (version s));
               ("isActive", VBool (isActive s));
               ("isActivable", VBool (isActivable s))] with
  | Some v => Some v
  | None => extra s !! k
  end.
Proof.
  unfold server_properties. rewrite lookup_union, literal_four.
  destruct (get k _), (extra s !! k); reflexivity.
Qed.

(** The ids of the table, in its order. *)
Lemma INTERCEPT_OPTIONS_keys :
  keys INTERCEPT_OPTIONS =
  ["docker-all"; "docker-specific"; "fresh-chrome"; "fresh-firefox";
   "fresh-safari"; "fresh-edge"; "fresh-terminal"; "existing-terminal";
   "electron"; "android-device"; "ios-device"; "network-device";
   "virtualbox-machine"; "system-proxy"; "manual-setup"].
Proof. reflexivity. Qed.

(** No id is listed twice, so the table is the object its literal denotes. *)
Lemma INTERCEPT_OPTIONS_NoDup : NoDup (keys INTERCEPT_OPTIONS).
Proof.
  rewrite INTERCEPT_OPTIONS_keys. apply (bool_decide_unpack _). vm_compute.
  reflexivity.
Qed.

(** ** Properties of [getInterceptOptions] *)

(** C1. Whatever the server statuses, the server version and the feature
    flags, the mapping that [getInterceptOptions] returns has exactly the
    keys of [INTERCEPT_OPTIONS] (here: the same keys in the same order): every
    id of the table has an entry, and the id of a server status that the
    table does not list has none. *)
Theorem getInterceptOptions_keys (arr : list ServerInterceptor) (sv : option string)
    (ff : option (list string)) :
  semver_calls_return arr sv ->
  exists m, getInterceptOptions arr sv ff = Normal m /\
    keys m = keys INTERCEPT_OPTIONS /\
    (forall i, is_Some (get i m) <-> is_Some (get i INTERCEPT_OPTIONS)) /\
    (forall s, s ∈ arr -> id s ∉ keys INTERCEPT_OPTIONS -> get (id s) m = None).
Proof.
  intros [m Hm]%(getInterceptOptions_returns arr sv ff).
  exists m. split; [exact Hm|].
  assert (keys m = keys INTERCEPT_OPTIONS) as Hkeys by exact (mapValues_keys _ _ _ Hm).
  split; [exact Hkeys|]. split.
  - intros i. rewrite !get_is_Some, Hkeys. reflexivity.
  - intros s _ Hid. rewrite <- Hkeys in Hid.
    destruct (get (id s) m) eqn:E; [|reflexivity].
    destruct Hid. apply get_is_Some. eauto.
Qed.

(** C2. For a descriptor [d] of the table with id [i]: when [d] is not
    client-only and no server status has the id [i], or when [d] has a
    requirement check and the check answers [false] on the interceptor
    version of the matching status (or none), the feature flags and the
    server version, the entry for [i] is the fields of [d] plus exactly
    [id: i, isSupported: false, isActive: false, isActivable: false].  With an
    empty server list this is the entry of every descriptor that is not
    client-only and has no check. *)
Theorem unsupported_entry (arr : list ServerInterceptor) (sv : option string)
    (ff : option (list string)) :
  semver_calls_return arr sv ->
  exists m, getInterceptOptions arr sv ff = Normal m /\
    (forall i d, get i INTERCEPT_OPTIONS = Some d ->
       (clientOnly d = false /\ forall s, s ∈ arr -> id s <> i) \/
       (exists check, checkRequirements d = Some check /\
          check (check_options arr sv ff i) = Normal false) ->
       exists o, get i m = Some o /\
         with_fields (config_properties d) (unsupported_fields i) o) /\
    (arr = [] ->
     forall i d, get i INTERCEPT_OPTIONS = Some d ->
       clientOnly d = false -> checkRequirements d = None ->
       exists o, get i m = Some o /\
         o !! "isSupported" = Some (VBool false) /\
         o !! "isActive" = Some (VBool false) /\
         o !! "isActivable" = Some (VBool false)).
Proof.
  intros [m Hm]%(getInterceptOptions_returns arr sv ff).
  exists m. split; [exact Hm|].
  assert (forall i d, get i INTERCEPT_OPTIONS = Some d ->
            clientOnly d = false -> keyBy arr !! i = None ->
            exists o, get i m = Some o /\
              with_fields (config_properties d) (unsupported_fields i) o) as Habsent.
  { intros i d Hd Hc Hs.
    destruct (getInterceptOptions_entry _ _ _ _ _ _ Hm Hd) as (o & Ho & Hget).
    destruct (resolveOption_absent (keyBy arr) sv (default [] ff) d i Hc Hs)
      as (o' & Ho' & Hw).
    same_result Ho Ho'. exists o. split; [exact Hget | exact Hw]. }
  split.
  - intros i d Hd [[Hc Hs%keyBy_None] | (check & Hcheck & Hfalse)].
    + exact (Habsent i d Hd Hc Hs).
    + destruct (getInterceptOptions_entry _ _ _ _ _ _ Hm Hd) as (o & Ho & Hget).
      destruct (resolveOption_unmet (keyBy arr) sv (default [] ff) d i check
                  Hcheck Hfalse) as (o' & Ho' & Hw).
      same_result Ho Ho'. exists o. split; [exact Hget | exact Hw].
  - intros -> i d Hd Hc _.
    destruct (Habsent i d Hd Hc) as (o & Hget & Hw); [reflexivity|].
    exists o. split; [exact Hget|].
    split_and!; [rewrite (Hw "isSupported") | rewrite (Hw "isActive")
                  | rewrite (Hw "isActivable")]; reflexivity.
Qed.

(** C3. For a client-only descriptor [d] of the table with id [i] whose
    requirement check, if it has one, answers [true], the entry for [i] is
    the fields of [d] plus exactly
    [id: i, isSupported: true, isActive: false, isActivable: true], whatever
    the server statuses are: in particular for a client-only descriptor
    with no check. *)
Theorem client_only_entry (arr : list ServerInterceptor) (sv : option string)
    (ff : option (list string)) :
  semver_calls_return arr sv ->
  exists m, getInterceptOptions arr sv ff = Normal m /\
    forall i d, get i INTERCEPT_OPTIONS = Some d -> clientOnly d = true ->
      checkRequirements d = None \/
      (exists check, checkRequirements d = Some check /\
         check (check_options arr sv ff i) = Normal true) ->
      exists o, get i m = Some o /\
        with_fields (config_properties d) (client_only_fields i) o /\
        o !! "id" = Some (VString i) /\
        o !! "isSupported" = Some (VBool true) /\
        o !! "isActive" = Some (VBool false) /\
        o !! "isActivable" = Some (VBool true).
Proof.
  intros [m Hm]%(getInterceptOptions_returns arr sv ff).
  exists m. split; [exact Hm|]. intros i d Hd Hc Hmet.
  destruct (getInterceptOptions_entry _ _ _ _ _ _ Hm Hd) as (o & Ho & Hget).
  destruct (resolveOption_client_only (keyBy arr) sv (default [] ff) d i Hc)
    as (o' & Ho' & Hw).
  { destruct Hmet as [-> | (check & -> & Htrue)]; [exact I | exact Htrue]. }
  same_result Ho Ho'. exists o. split; [exact Hget|]. split; [exact Hw|].
  split_and!; [rewrite (Hw "id") | rewrite (Hw "isSupported")
                | rewrite (Hw "isActive") | rewrite (Hw "isActivable")];
    reflexivity.
Qed.

(** C4. For a descriptor [d] of the table with id [i] that is not
    client-only, has a matching server status [s] and whose requirement
    check, if it has one, answers [true], the entry for [i] is an overlay
    in which the later layer wins: the fields of [d], then all the
    properties of [s] (its version, [isActive], [isActivable] and whatever
    else it carries), then [id: i, isSupported: true].  With the single
    status [{id: 'docker-all', version: 'x', isActive: true,
    isActivable: true}] the entry of [docker-all] is supported, active and
    activable. *)
Theorem server_backed_entry (arr : list ServerInterceptor) (sv : option string)
    (ff : option (list string)) :
  semver_calls_return arr sv ->
  exists m, getInterceptOptions arr sv ff = Normal m /\
    (forall i d s, get i INTERCEPT_OPTIONS = Some d -> clientOnly d = false ->
       keyBy arr !! i = Some s ->
       checkRequirements d = None \/
       (exists check, checkRequirements d = Some check /\
          check (check_options arr sv ff i) = Normal true) ->
       exists o, get i m = Some o /\
         overlaid (config_properties d) (server_properties s) (supported_fields i) o /\
         o !! "id" = Some (VString i) /\
         o !! "isSupported" = Some (VBool true) /\
         o !! "version" = Some (VString (version s)) /\
         o !! "isActive" = Some (VBool (isActive s)) /\
         o !! "isActivable" = Some (VBool (isActivable s)) /\
         (forall k v, extra s !! k = Some v ->
            k ∉ ["id"; "isSupported"; "version"; "isActive"; "isActivable"] ->
            o !! k = Some v) /\
         (forall k, server_properties s !! k = None ->
            k ∉ ["id"; "isSupported"] ->
            o !! k = config_properties d !! k)) /\
    (forall more,
       arr = [ {| id := "docker-all"; version := "x"; isActive := true;
                  isActivable := true; extra := more |} ] ->
       exists o, get "docker-all" m = Some o /\
         o !! "isSupported" = Some (VBool true) /\
         o !! "isActive" = Some (VBool true) /\
         o !! "isActivable" = Some (VBool true)).
Proof.
  intros [m Hm]%(getInterceptOptions_returns arr sv ff).
  exists m. split; [exact Hm|].
  assert (forall i d s, get i INTERCEPT_OPTIONS = Some d -> clientOnly d = false ->
            keyBy arr !! i = Some s ->
            checkRequirements d = None \/
            (exists check, checkRequirements d = Some check /\
               check (check_options arr sv ff i) = Normal true) ->
            exists o, get i m = Some o /\
              overlaid (config_properties d) (server_properties s)
                (supported_fields i) o) as Hoverlay.
  { intros i d s Hd Hc Hs Hmet.
    destruct (getInterceptOptions_entry _ _ _ _ _ _ Hm Hd) as (o & Ho & Hget).
    destruct (resolveOption_server (keyBy arr) sv (default [] ff) d i s Hc Hs)
      as (o' & Ho' & Hw).
    { destruct Hmet as [-> | (check & -> & Htrue)]; [exact I | exact Htrue]. }
    same_result Ho Ho'. exists o. split; [exact Hget | exact Hw]. }
  split.
  - intros i d s Hd Hc Hs Hmet.
    destruct (Hoverlay i d s Hd Hc Hs Hmet) as (o & Hget & Hw).
    exists o. split; [exact Hget|]. split; [exact Hw|].
    split_and!;
      try (match goal with |- o !! ?k = _ => rewrite (Hw k) end;
           simpl; rewrite ?server_properties_lookup; reflexivity).
    + intros k v Hk Hnot.
      rewrite (Hw k), server_properties_lookup, !get_None;
        [rewrite Hk; reflexivity | |];
        unfold supported_fields; cbn [keys map fst];
        revert Hnot; rewrite !not_elem_of_cons; tauto.
    + intros k Hk Hnot. rewrite (Hw k), Hk, get_None; [reflexivity|].
      exact Hnot.
  - intros more ->.
    destruct (Hoverlay "docker-all" _ _ eq_refl eq_refl eq_refl) as (o & Hget & Hw);
      [left; reflexivity|].
    exists o. split; [exact Hget|].
    split_and!;
      match goal with |- o !! ?k = _ => rewrite (Hw k) end;
      simpl; rewrite ?server_properties_lookup; reflexivity.
Qed.

Lemma includes_false (array : list string) (x : string) :
  x ∉ array -> includes array x = false.
Proof.
  unfold includes. induction array as [|y array IH]; [reflexivity|].
  rewrite not_elem_of_cons. intros [Hne Hnot]. simpl.
  destruct (String.eqb_spec x y); [contradiction|]. exact (IH Hnot).
Qed.

(** C6. When ['android'] is not among the feature flags, the entry of
    [android-device] is unsupported, inactive and not activable, whatever
    the server statuses (one with the id [android-device] included) and
    the server version are. *)
Theorem android_requires_flag (arr : list ServerInterceptor) (sv : option string)
    (ff : option (list string)) :
  semver_calls_return arr sv ->
  "android" ∉ default [] ff ->
  exists m, getInterceptOptions arr sv ff = Normal m /\
    exists d o, get "android-device" INTERCEPT_OPTIONS = Some d /\
      get "android-device" m = Some o /\
      with_fields (config_properties d) (unsupported_fields "android-device") o /\
      o !! "isSupported" = Some (VBool false) /\
      o !! "isActive" = Some (VBool false) /\
      o !! "isActivable" = Some (VBool false).
Proof.
  intros Hret Hflag. pose proof Hret as [[inRange Hrange] _].
  apply (getInterceptOptions_returns arr sv ff) in Hret as [m Hm].
  exists m. split; [exact Hm|].
  destruct (getInterceptOptions_entry _ _ _ _ "android-device" _ Hm eq_refl)
    as (o & Ho & Hget).
  match type of Ho with resolveOption _ _ _ ?config _ = _ =>
    exists config;
    destruct (resolveOption_unmet (keyBy arr) sv (default [] ff) config
                "android-device" _ eq_refl) as (o' & Ho' & Hw)
  end.
  { simpl. rewrite Hrange. simpl. rewrite (includes_false _ _ Hflag).
    rewrite andb_false_r. reflexivity. }
  same_result Ho Ho'. exists o. split; [reflexivity|]. split; [exact Hget|].
  split; [exact Hw|].
  split_and!; [rewrite (Hw "isSupported") | rewrite (Hw "isActive")
                | rewrite (Hw "isActivable")]; reflexivity.
Qed.

(** [resolveOption] reads the index of the server statuses at its own id
    only. *)
Lemma resolveOption_lookup (servers servers' : gmap string ServerInterceptor)
    (sv : option string) (flags : list string) (d : InterceptorConfig) (i : string) :
  servers !! i = servers' !! i ->
  resolveOption servers sv flags d i = resolveOption servers' sv flags d i.
Proof. intros H. unfold resolveOption. rewrite H. reflexivity. Qed.

Lemma with_id_app (i : string) (l1 l2 : list ServerInterceptor) :
  with_id i (l1 ++ l2) = with_id i l1 ++ with_id i l2.
Proof. apply filter_app. Qed.

Lemma with_id_none (i : string) (l : list ServerInterceptor) :
  (forall s, s ∈ l -> id s <> i) -> with_id i l = [].
Proof.
  intros H. induction l as [|s l IH]; [reflexivity|].
  unfold with_id. rewrite filter_cons. case_decide as Hid.
  - destruct (H s); [left | exact Hid].
  - apply IH. intros s' Hs'. apply H. right. exact Hs'.
Qed.

(** C8. When several server statuses carry the same id, the index built
    by [_.keyBy] keeps the last of them, and the entry for that id is the
    one computed from this last status alone. *)
Theorem last_status_wins (arr : list ServerInterceptor) (sv : option string)
    (ff : option (list string)) :
  semver_calls_return arr sv ->
  (forall i, keyBy arr !! i = last (with_id i arr)) /\
  (forall before s after, arr = before ++ s :: after ->
     (forall s', s' ∈ after -> id s' <> id s) ->
     keyBy arr !! id s = Some s) /\
  exists m, getInterceptOptions arr sv ff = Normal m /\
    (forall i d s, get i INTERCEPT_OPTIONS = Some d ->
       last (with_id i arr) = Some s ->
       exists o, get i m = Some o /\
         resolveOption {[ i := s ]} sv (default [] ff) d i = Normal o) /\
    (forall arr', (forall i, last (with_id i arr') = last (with_id i arr)) ->
       getInterceptOptions arr' sv ff = Normal m).
Proof.
  intros [m Hm]%(getInterceptOptions_returns arr sv ff).
  split; [intros i; apply keyBy_last|]. split.
  - intros before s after -> Hafter.
    rewrite keyBy_last, with_id_app. unfold with_id at 2. rewrite filter_cons.
    case_decide as Hid; [|contradiction]. fold (with_id (id s) after).
    rewrite (with_id_none _ _ Hafter). apply last_snoc.
  - exists m. split; [exact Hm|]. split.
    + intros i d s Hd Hlast.
      destruct (getInterceptOptions_entry _ _ _ _ _ _ Hm Hd) as (o & Ho & Hget).
      exists o. split; [exact Hget|]. rewrite <- Ho.
      apply resolveOption_lookup.
      rewrite lookup_singleton_eq, keyBy_last. symmetry. exact Hlast.
    + intros arr' Hlast. rewrite <- Hm. unfold getInterceptOptions.
      replace (keyBy arr') with (keyBy arr); [reflexivity|].
      apply map_eq. intros i. rewrite !keyBy_last. symmetry. apply Hlast.
Qed.

(** C9. In every entry of the returned mapping [isSupported] is a boolean,
    and where it is [false], [isActive] and [isActivable] are [false]
    too. *)
Theorem unsupported_is_inactive (arr : list ServerInterceptor) (sv : option string)
    (ff : option (list string)) :
  semver_calls_return arr sv ->
  exists m, getInterceptOptions arr sv ff = Normal m /\
    forall i o, get i m = Some o ->
      (exists b, o !! "isSupported" = Some (VBool b)) /\
      (o !! "isSupported" = Some (VBool false) ->
       o !! "isActive" = Some (VBool false) /\
       o !! "isActivable" = Some (VBool false)).
Proof.
  intros [m Hm]%(getInterceptOptions_returns arr sv ff).
  exists m. split; [exact Hm|]. intros i o Hget.
  destruct (mapValues_get_inv _ _ _ _ _ Hm Hget) as (d & _ & Ho).
  apply resolveOption_cases in Ho
    as [[_ Hw] | [(_ & _ & Hw) | (_ & _ & s & _ & Hw)]];
    rewrite (Hw "isSupported"), ?(Hw "isActive"), ?(Hw "isActivable"); simpl;
    (split; [eexists; reflexivity | intros [=]; split; reflexivity]).
Qed.

Lemma optional_key (key : string) (v : option value) (k : string) :
  is_Some (optional key v !! k) -> k = key.
Proof.
  intros [x Hx]. destruct v; simpl in Hx.
  - apply lookup_singleton_Some in Hx as [-> _]. reflexivity.
  - rewrite lookup_empty in Hx. discriminate.
Qed.

(** The property names a table entry can have. *)
Lemma config_properties_keys (d : InterceptorConfig) (k : string) :
  is_Some (config_properties d !! k) ->
  k ∈ ["name"; "description"; "iconProps"; "tags"; "inProgress"; "clientOnly";
       "checkRequirements"; "uiConfig"].
Proof.
  intros H. unfold config_properties in H.
  rewrite !lookup_union_is_Some, literal_four in H.
  destruct H as [[[[H%get_is_Some | H] | H] | H] | H];
    [cbn [keys map fst] in H | apply optional_key in H as -> ..];
    rewrite !elem_of_cons in *; tauto.
Qed.

(** The client-only descriptors of the table. *)
Lemma client_only_ids (i : string) (d : InterceptorConfig) :
  get i INTERCEPT_OPTIONS = Some d ->
  clientOnly d = true <-> i = "android-device" \/ i = "manual-setup".
Proof.
  unfold INTERCEPT_OPTIONS, MANUAL_INTERCEPT_ID. cbn [get].
  repeat match goal with
  | |- context [String.eqb ?a i] =>
      destruct (String.eqb_spec a i) as [<-|?];
      [intros [= <-]; simpl; intuition congruence|]
  end.
  discriminate.
Qed.

(** C10. The client-only descriptors of the table are [android-device]
    and [manual-setup].  For them the entry is the same whatever server
    statuses are passed, the feature flags and the server version being
    the same: its [isActive] is [false], it has no [version], and its
    properties are those of the descriptor and the four fields
    [id], [isSupported], [isActive], [isActivable]. *)
Theorem client_only_ignores_server (arr arr' : list ServerInterceptor)
    (sv : option string) (ff : option (list string)) :
  semver_calls_return arr sv -> semver_calls_return arr' sv ->
  exists m m', getInterceptOptions arr sv ff = Normal m /\
    getInterceptOptions arr' sv ff = Normal m' /\
    forall i d, get i INTERCEPT_OPTIONS = Some d ->
      (clientOnly d = true <-> i = "android-device" \/ i = "manual-setup") /\
      (clientOnly d = true ->
       exists o, get i m = Some o /\ get i m' = Some o /\
         o !! "isActive" = Some (VBool false) /\
         o !! "version" = None /\
         forall k, is_Some (o !! k) ->
           is_Some (config_properties d !! k) \/
           k ∈ ["id"; "isSupported"; "isActive"; "isActivable"]).
Proof.
  intros [m Hm]%(getInterceptOptions_returns arr sv ff)
         [m' Hm']%(getInterceptOptions_returns arr' sv ff).
  exists m, m'. split; [exact Hm|]. split; [exact Hm'|]. intros i d Hd.
  split; [exact (client_only_ids i d Hd)|]. intros Hc.
  destruct (getInterceptOptions_entry _ _ _ _ _ _ Hm Hd) as (o & Ho & Hget).
  destruct (getInterceptOptions_entry _ _ _ _ _ _ Hm' Hd) as (o' & Ho' & Hget').
  assert (resolveOption (keyBy arr) sv (default [] ff) d i =
          resolveOption (keyBy arr') sv (default [] ff) d i) as Hsame.
  { apply (client_only_ids i d Hd) in Hc as [-> | ->];
      injection Hd as <-; reflexivity. }
  rewrite Hsame in Ho. same_result Ho Ho'.
  exists o. split; [exact Hget|]. split; [exact Hget'|].
  assert (exists fields,
            with_fields (config_properties d) fields o /\
            get "isActive" fields = Some (VBool false) /\
            get "version" fields = None /\
            keys fields = ["id"; "isSupported"; "isActive"; "isActivable"])
    as (fields & Hw & Hactive & Hversion & Hkeys).
  { apply resolveOption_cases in Ho
      as [[_ Hw] | [(_ & _ & Hw) | (Hc' & _)]]; [| |congruence];
      eexists; (split; [exact Hw|]); split_and!; reflexivity. }
  split; [rewrite (Hw "isActive"), Hactive; reflexivity|]. split.
  - rewrite (Hw "version"), Hversion.
    destruct (config_properties d !! "version") eqn:E; [|reflexivity].
    assert (is_Some (config_properties d !! "version")) as Hin by eauto.
    apply config_properties_keys in Hin.
    rewrite !elem_of_cons in Hin. rewrite elem_of_nil in Hin.
    intuition discriminate.
  - intros k. rewrite (Hw k), <- Hkeys. destruct (get k fields) eqn:E.
    + intros _. right. apply get_is_Some. eauto.
    + intros H. left. exact H.
Qed.

(** C7, as the code has it.  [getInterceptOptions] throws nothing of its
    own: it returns exactly when the calls of [semver.satisfies] it makes
    return, and an exception it raises is theirs.  For a descriptor with a
    requirement check and no matching server status, the interceptor
    version handed to the check is absent, which is no error: a descriptor
    that is not client-only ([electron]) is unsupported without its check
    being consulted, and a client-only one ([android-device]) is supported
    exactly when its check answers [true].  The check of [electron] answers
    [false] on an absent interceptor version.  An absent server version
    makes [android-device] unsupported, without fault. *)
Theorem getInterceptOptions_exceptions (arr : list ServerInterceptor)
    (sv : option string) (ff : option (list string)) :
  rejects_missing_version ->
  (returns (getInterceptOptions arr sv ff) <-> semver_calls_return arr sv) /\
  (forall e, getInterceptOptions arr sv ff = Throw e ->
     satisfies (Some (or_empty sv)) DETAILED_CONFIG_RANGE = Throw e \/
     exists s, keyBy arr !! "electron" = Some s /\
       satisfies (Some (version s)) "^1.0.1" = Throw e) /\
  (forall m, getInterceptOptions arr sv ff = Normal m ->
     forall i d check, get i INTERCEPT_OPTIONS = Some d ->
       checkRequirements d = Some check ->
       (forall s, s ∈ arr -> id s <> i) ->
       interceptorVersion (check_options arr sv ff i) = None /\
       exists o, get i m = Some o /\
         if clientOnly d
         then exists met, check (check_options arr sv ff i) = Normal met /\
                with_fields (config_properties d)
                  (if met then client_only_fields i else unsupported_fields i) o
         else with_fields (config_properties d) (unsupported_fields i) o) /\
  (exists d check, get "electron" INTERCEPT_OPTIONS = Some d /\
     checkRequirements d = Some check /\
     forall flags v,
       check {| interceptorVersion := None; featureFlags := flags;
                serverVersion := v |} = Normal false) /\
  (sv = None ->
   (forall s, keyBy arr !! "electron" = Some s ->
      returns (satisfies (Some (version s)) "^1.0.1")) ->
   exists m d o, getInterceptOptions arr sv ff = Normal m /\
     get "android-device" INTERCEPT_OPTIONS = Some d /\
     get "android-device" m = Some o /\
     with_fields (config_properties d) (unsupported_fields "android-device") o).
Proof.
  intros Hrejects. split; [apply getInterceptOptions_returns|].
  split; [intros e; apply getInterceptOptions_throw|]. split; [|split].
  - intros m Hm i d check Hd Hcheck Hs%keyBy_None.
    split; [unfold check_options; simpl; rewrite Hs; reflexivity|].
    destruct (getInterceptOptions_entry _ _ _ _ _ _ Hm Hd) as (o & Ho & Hget).
    exists o. split; [exact Hget|].
    destruct (clientOnly d) eqn:Hc.
    + apply resolveOption_cases in Ho
        as [[[[Hc' _] | (check' & Hcheck' & Hfalse)] Hw]
           | [(_ & Hmet & Hw) | (Hc' & _)]]; try congruence.
      * exists false. rewrite Hcheck in Hcheck'. injection Hcheck' as <-.
        split; [exact Hfalse | exact Hw].
      * exists true. rewrite Hcheck in Hmet. split; [exact Hmet | exact Hw].
    + destruct (resolveOption_absent (keyBy arr) sv (default [] ff) d i Hc Hs)
        as (o' & Ho' & Hw).
      same_result Ho Ho'. exact Hw.
  - do 2 eexists. split; [reflexivity|]. split; [reflexivity|].
    intros flags v. simpl. apply Hrejects.
  - intros -> Helectron.
    assert (semver_calls_return arr None) as Hret.
    { split; [|exact Helectron]. exists false. apply Hrejects. }
    apply (getInterceptOptions_returns arr None ff) in Hret as [m Hm].
    destruct (getInterceptOptions_entry _ _ _ _ "android-device" _ Hm eq_refl)
      as (o & Ho & Hget).
    match type of Ho with resolveOption _ _ _ ?config _ = _ =>
      exists m, config, o;
      destruct (resolveOption_unmet (keyBy arr) None (default [] ff) config
                  "android-device" _ eq_refl) as (o' & Ho' & Hw)
    end.
    { simpl. destruct (Hrejects DETAILED_CONFIG_RANGE) as [_ ->]. reflexivity. }
    same_result Ho Ho'. split_and!; try reflexivity; assumption.
Qed.

(** ** Further properties of [getInterceptOptions] *)

Lemma mapValues_ext {A B} (obj : Dictionary A) (f g : A -> string -> completion B) :
  (forall key a, In (key, a) obj -> f a key = g a key) ->
  mapValues obj f = mapValues obj g.
Proof.
  induction obj as [|[key a] rest IH]; intros H; simpl; [reflexivity|].
  rewrite (H key a) by (left; reflexivity).
  rewrite IH; [reflexivity|]. intros key' a' Hin. apply H. right. exact Hin.
Qed.

(** Two calls agree when [resolveOption] does on every entry of the table. *)
Lemma getInterceptOptions_ext (arr arr' : list ServerInterceptor)
    (sv sv' : option string) (ff ff' : option (list string)) :
  (forall i d, In (i, d) INTERCEPT_OPTIONS ->
     resolveOption (keyBy arr) sv (default [] ff) d i =
     resolveOption (keyBy arr') sv' (default [] ff') d i) ->
  getInterceptOptions arr sv ff = getInterceptOptions arr' sv' ff'.
Proof. intros H. apply mapValues_ext. intros i d Hin. apply H, Hin. Qed.

Lemma In_get {A} (i : string) (a : A) (d : Dictionary A) :
  In (i, a) d -> i ∈ keys d.
Proof.
  intros Hin. apply list_elem_of_In. unfold keys.
  apply (in_map fst) in Hin. exact Hin.
Qed.

(** [resolveOption] hands the server version and the feature flags to the
    check only. *)
Lemma resolveOption_options (servers : gmap string ServerInterceptor)
    (sv sv' : option string) (flags flags' : list string)
    (d : InterceptorConfig) (i : string) :
  (forall check, checkRequirements d = Some check ->
     check {| interceptorVersion := version <$> servers !! i;
              featureFlags := flags; serverVersion := sv |} =
     check {| interceptorVersion := version <$> servers !! i;
              featureFlags := flags'; serverVersion := sv' |}) ->
  resolveOption servers sv flags d i = resolveOption servers sv' flags' d i.
Proof.
  intros H. unfold resolveOption.
  destruct (checkRequirements d) as [check|]; [|reflexivity].
  rewrite (H check eq_refl). reflexivity.
Qed.

(** The check is called, and throws. *)
Lemma resolveOption_check_throws (servers : gmap string ServerInterceptor)
    (sv : option string) (flags : list string) (d : InterceptorConfig)
    (i : string) (check : CheckOptions -> completion bool) (e : string) :
  checkRequirements d = Some check ->
  clientOnly d = true \/ is_Some (servers !! i) ->
  check {| interceptorVersion := version <$> servers !! i;
           featureFlags := flags; serverVersion := sv |} = Throw e ->
  resolveOption servers sv flags d i = Throw e.
Proof.
  intros Hcheck Hcalled Hthrow. unfold resolveOption. rewrite Hcheck, Hthrow.
  destruct Hcalled as [-> | [s ->]]; simpl.
  - reflexivity.
  - rewrite andb_false_r. reflexivity.
Qed.

Lemma includes_true (array : list string) (x : string) :
  x ∈ array -> includes array x = true.
Proof.
  unfold includes. intros Hin. apply existsb_exists. exists x.
  split; [apply list_elem_of_In, Hin | apply String.eqb_refl].
Qed.

Lemma includes_iff (array array' : list string) (x : string) :
  (x ∈ array <-> x ∈ array') -> includes array x = includes array' x.
Proof.
  intros H. destruct (decide (x ∈ array)) as [Hin | Hnot].
  - rewrite !includes_true; [reflexivity | apply H, Hin | exact Hin].
  - rewrite !includes_false; [reflexivity | | exact Hnot].
    intros Hin. apply Hnot, H, Hin.
Qed.

Lemma with_id_filter (P : ServerInterceptor -> Prop) `{forall s, Decision (P s)}
    (i : string) (array : list ServerInterceptor) :
  (forall s, id s = i -> P s) ->
  with_id i (filter P array) = with_id i array.
Proof.
  intros HP. unfold with_id. induction array as [|s array IH]; [reflexivity|].
  rewrite !filter_cons. destruct (decide (P s)) as [Hs | Hs].
  - rewrite filter_cons, IH. reflexivity.
  - rewrite IH. destruct (decide (id s = i)) as [Hid | Hid]; [|reflexivity].
    destruct (Hs (HP s Hid)).
Qed.

Lemma config_properties_no_version (d : InterceptorConfig) :
  config_properties d !! "version" = None.
Proof.
  destruct (config_properties d !! "version") eqn:E; [|reflexivity].
  assert (is_Some (config_properties d !! "version")) as Hin by eauto.
  apply config_properties_keys, list_elem_of_In in Hin. simpl in Hin.
  intuition discriminate.
Qed.

Lemma config_properties_not_set (d : InterceptorConfig) (k : string) :
  k ∈ ["id"; "isSupported"; "isActive"; "isActivable"] ->
  config_properties d !! k = None.
Proof.
  intros Hk. destruct (config_properties d !! k) eqn:E; [|reflexivity].
  assert (is_Some (config_properties d !! k)) as Hin by eauto.
  apply config_properties_keys, list_elem_of_In in Hin.
  apply list_elem_of_In in Hk. simpl in Hin, Hk.
  destruct Hk as [<- | [<- | [<- | [<- | []]]]]; intuition discriminate.
Qed.

(** [_.mapValues] throws what the first throwing call of the iteratee
    throws. *)
Lemma mapValues_first_throw {A B} (before : Dictionary A) (key : string) (a : A)
    (after : Dictionary A) (f : A -> string -> completion B) (e : string) :
  Forall (fun entry => returns (f entry.2 entry.1)) before ->
  f a key = Throw e ->
  mapValues (before ++ (key, a) :: after) f = Throw e.
Proof.
  intros Hbefore Hthrow. induction Hbefore as [|[k x] rest [b Hb] _ IH]; simpl.
  - rewrite Hthrow. reflexivity.
  - simpl in Hb. rewrite Hb. simpl. rewrite IH. reflexivity.
Qed.

(** The entries before [electron] have no check: their calls return. *)
Lemma getInterceptOptions_electron_throws (arr : list ServerInterceptor)
    (sv : option string) (ff : option (list string)) (s : ServerInterceptor)
    (e : string) :
  keyBy arr !! "electron" = Some s ->
  satisfies (Some (version s)) "^1.0.1" = Throw e ->
  getInterceptOptions arr sv ff = Throw e.
Proof.
  intros Hs Hthrow. unfold getInterceptOptions.
  rewrite <- (take_drop 8 INTERCEPT_OPTIONS).
  unfold INTERCEPT_OPTIONS. cbn [take drop].
  apply mapValues_first_throw.
  - repeat (apply Forall_cons; split); try solve [constructor];
      cbn beta iota delta [fst snd]; apply resolveOption_returns; right; exact I.
  - eapply resolveOption_check_throws; [reflexivity | right; eauto |].
    simpl. rewrite Hs. exact Hthrow.
Qed.

Lemma getInterceptOptions_android_throws (arr : list ServerInterceptor)
    (sv : option string) (ff : option (list string)) (e : string) :
  (forall s, keyBy arr !! "electron" = Some s ->
     returns (satisfies (Some (version s)) "^1.0.1")) ->
  satisfies (Some (or_empty sv)) DETAILED_CONFIG_RANGE = Throw e ->
  getInterceptOptions arr sv ff = Throw e.
Proof.
  intros Helectron Hthrow. unfold getInterceptOptions.
  rewrite <- (take_drop 9 INTERCEPT_OPTIONS).
  unfold INTERCEPT_OPTIONS. cbn [take drop].
  apply mapValues_first_throw.
  - repeat (apply Forall_cons; split); try solve [constructor];
      cbn beta iota delta [fst snd]; apply resolveOption_returns;
      try (right; exact I).
    simpl. destruct (keyBy arr !! "electron") as [s|] eqn:Hs; [right | left; auto].
    exact (Helectron s eq_refl).
  - eapply resolveOption_check_throws; [reflexivity | left; reflexivity |].
    simpl. rewrite Hthrow. reflexivity.
Qed.

(** X1. [getInterceptOptions] throws [e] exactly when the [electron] check
    is called (the server reports an [electron] status) and its call of
    [semver.satisfies] throws [e], or when that call returns or is not made
    and the call of [semver.satisfies] in the [android-device] check throws
    [e]: the table is mapped in order, and [electron] comes first. *)
Theorem getInterceptOptions_throws_iff (arr : list ServerInterceptor)
    (sv : option string) (ff : option (list string)) (e : string) :
  getInterceptOptions arr sv ff = Throw e <->
  (exists s, keyBy arr !! "electron" = Some s /\
     satisfies (Some (version s)) "^1.0.1" = Throw e) \/
  ((forall s, keyBy arr !! "electron" = Some s ->
      returns (satisfies (Some (version s)) "^1.0.1")) /\
   satisfies (Some (or_empty sv)) DETAILED_CONFIG_RANGE = Throw e).
Proof.
  split.
  - intros Hrun.
    destruct (keyBy arr !! "electron") as [s|] eqn:Hs.
    + destruct (satisfies (Some (version s)) "^1.0.1") as [b|e'] eqn:He.
      * right. split; [intros s' [= <-]; rewrite He; eexists; reflexivity|].
        apply getInterceptOptions_throw in Hrun as [H | (s' & Hs' & H)];
          [exact H | congruence].
      * left. exists s. split; [reflexivity|].
        rewrite (getInterceptOptions_electron_throws arr sv ff s e' Hs He) in Hrun.
        congruence.
    + right. split; [intros s [=]|].
      apply getInterceptOptions_throw in Hrun as [H | (s' & Hs' & H)];
        [exact H | congruence].
  - intros [(s & Hs & He) | [Helectron Handroid]].
    + exact (getInterceptOptions_electron_throws arr sv ff s e Hs He).
    + exact (getInterceptOptions_android_throws arr sv ff e Helectron Handroid).
Qed.

(** X2. Statuses whose id the table does not list change nothing: the
    call on the whole array is the call on the statuses with a listed id,
    result or exception alike.  An array of unlisted ids only is the
    empty array. *)
Theorem unknown_ids_are_dropped (arr : list ServerInterceptor)
    (sv : option string) (ff : option (list string)) :
  getInterceptOptions arr sv ff =
  getInterceptOptions
    (filter (fun s => id s ∈ keys INTERCEPT_OPTIONS) arr) sv ff /\
  ((forall s, s ∈ arr -> id s ∉ keys INTERCEPT_OPTIONS) ->
   getInterceptOptions arr sv ff = getInterceptOptions [] sv ff).
Proof.
  split.
  - apply getInterceptOptions_ext. intros i d Hin%In_get.
    apply resolveOption_lookup. rewrite !keyBy_last.
    rewrite with_id_filter; [reflexivity|]. intros s <-. exact Hin.
  - intros Hunknown. apply getInterceptOptions_ext. intros i d Hin%In_get.
    apply resolveOption_lookup. rewrite !keyBy_last.
    rewrite with_id_none; [reflexivity|]. intros s Hs <-.
    exact (Hunknown s Hs Hin).
Qed.

(** X3. The entry for an id depends on the server statuses through the
    last status with that id only: two arrays with the same last status
    for [i] (or none in both) give the same entry for [i], whatever else
    they hold. *)
Theorem entry_depends_on_own_status (arr arr' : list ServerInterceptor)
    (sv : option string) (ff : option (list string)) (i : string) :
  semver_calls_return arr sv -> semver_calls_return arr' sv ->
  last (with_id i arr) = last (with_id i arr') ->
  exists m m', getInterceptOptions arr sv ff = Normal m /\
    getInterceptOptions arr' sv ff = Normal m' /\
    get i m = get i m'.
Proof.
  intros [m Hm]%(getInterceptOptions_returns arr sv ff)
         [m' Hm']%(getInterceptOptions_returns arr' sv ff) Hlast.
  exists m, m'. split; [exact Hm|]. split; [exact Hm'|].
  destruct (get i INTERCEPT_OPTIONS) as [d|] eqn:Hd.
  - destruct (getInterceptOptions_entry _ _ _ _ _ _ Hm Hd) as (o & Ho & ->).
    destruct (getInterceptOptions_entry _ _ _ _ _ _ Hm' Hd) as (o' & Ho' & ->).
    rewrite (resolveOption_lookup (keyBy arr) (keyBy arr')) in Ho
      by (rewrite !keyBy_last; exact Hlast).
    congruence.
  - assert (i ∉ keys INTERCEPT_OPTIONS) as Hnot.
    { intros [d' Hd']%get_is_Some. congruence. }
    rewrite !get_None; [reflexivity | |].
    + rewrite (mapValues_keys _ _ _ Hm'). exact Hnot.
    + rewrite (mapValues_keys _ _ _ Hm). exact Hnot.
Qed.

(** X4. A later report supersedes an earlier one: when every id of [old]
    is reported again in [new], the call on [old ++ new] is the call on
    [new]. *)
Theorem later_statuses_supersede (old new : list ServerInterceptor)
    (sv : option string) (ff : option (list string)) :
  (forall s, s ∈ old -> exists s', s' ∈ new /\ id s' = id s) ->
  getInterceptOptions (old ++ new) sv ff = getInterceptOptions new sv ff.
Proof.
  intros Hagain. apply getInterceptOptions_ext. intros i d _.
  apply resolveOption_lookup. rewrite !keyBy_last, with_id_app.
  destruct (with_id i new) as [|s' l] eqn:Hnew.
  - rewrite app_nil_r, with_id_none; [reflexivity|].
    intros s Hs Hid. destruct (Hagain s Hs) as (s' & Hs' & Hid').
    assert (s' ∈ with_id i new) as Hin
      by (apply list_elem_of_filter; split; [congruence | exact Hs']).
    rewrite Hnew in Hin. inversion Hin.
  - rewrite last_app. destruct (last (s' :: l)) eqn:El; [reflexivity|].
    apply last_None in El. discriminate.
Qed.

(** X5. When no two statuses carry the same id, their order in the array
    does not matter. *)
Theorem order_of_statuses_irrelevant (arr arr' : list ServerInterceptor)
    (sv : option string) (ff : option (list string)) :
  NoDup (map id arr) -> arr ≡ₚ arr' ->
  getInterceptOptions arr sv ff = getInterceptOptions arr' sv ff.
Proof.
  intros Hnodup Hperm. apply getInterceptOptions_ext. intros i d _.
  apply resolveOption_lookup. rewrite !keyBy_last.
  assert (forall l : list ServerInterceptor,
            NoDup (map id l) -> length (with_id i l) <= 1) as Hshort.
  { induction l as [|s l IH]; [simpl; lia|]. intros Hl.
    apply NoDup_cons in Hl as [Hs Hl]. unfold with_id. rewrite filter_cons.
    case_decide as Hid; [|exact (IH Hl)]. fold (with_id i l).
    rewrite with_id_none; [simpl; lia|].
    intros s' Hs' Hid'. apply Hs. rewrite Hid, <- Hid'.
    apply list_elem_of_fmap. exists s'. auto. }
  assert (with_id i arr ≡ₚ with_id i arr') as Hfilter
    by (unfold with_id; rewrite Hperm; reflexivity).
  pose proof (Hshort arr Hnodup) as Hlen.
  destruct (with_id i arr) as [|s [|s2 l]]; simpl in Hlen; [| |lia].
  - apply Permutation_nil_l in Hfilter. rewrite <- Hfilter. reflexivity.
  - apply Permutation_singleton_l in Hfilter. rewrite Hfilter. reflexivity.
Qed.

Lemma get_In {A} (i : string) (a : A) (d : Dictionary A) :
  get i d = Some a -> In (i, a) d.
Proof.
  induction d as [|[k x] d IH]; [discriminate|]. simpl.
  destruct (String.eqb_spec k i) as [->|_].
  - intros [= ->]. left. reflexivity.
  - intros H. right. exact (IH H).
Qed.

(** The checks of the table read the server version through
    [serverVersion || ''] and the feature flags through
    [includes("android")], and nothing else of either. *)
Lemma table_checks_read (servers : gmap string ServerInterceptor)
    (sv sv' : option string) (flags flags' : list string)
    (i : string) (d : InterceptorConfig) :
  In (i, d) INTERCEPT_OPTIONS ->
  i <> "android-device" \/
  (or_empty sv = or_empty sv' /\
   includes flags "android" = includes flags' "android") ->
  resolveOption servers sv flags d i = resolveOption servers sv' flags' d i.
Proof.
  intros Hin Hsame. apply resolveOption_options. intros check Hcheck.
  unfold INTERCEPT_OPTIONS in Hin. simpl in Hin.
  repeat (destruct Hin as [[= <- <-] | Hin]; try discriminate Hcheck);
    try contradiction; injection Hcheck as <-.
  - reflexivity.
  - destruct Hsame as [Hne | [Hsv Hflags]]; [contradiction|].
    simpl. rewrite Hsv, Hflags. reflexivity.
Qed.

(** X6. Of the feature flags only ['android'] is read: two flag lists
    that agree on whether they hold ['android'] give the same result.
    Leaving the flags out is passing none. *)
Theorem only_android_flag_is_read (arr : list ServerInterceptor)
    (sv : option string) (ff ff' : option (list string)) :
  ("android" ∈ default [] ff <-> "android" ∈ default [] ff') ->
  getInterceptOptions arr sv ff = getInterceptOptions arr sv ff'.
Proof.
  intros Hflags. apply getInterceptOptions_ext. intros i d Hin.
  apply (table_checks_read _ _ _ _ _ i d Hin). right.
  split; [reflexivity | apply includes_iff, Hflags].
Qed.

(** X7. An empty server version is an absent one. *)
Theorem empty_server_version_is_absent (arr : list ServerInterceptor)
    (ff : option (list string)) :
  getInterceptOptions arr (Some "") ff = getInterceptOptions arr None ff.
Proof.
  apply getInterceptOptions_ext. intros i d Hin.
  apply (table_checks_read _ _ _ _ _ i d Hin). right.
  split; reflexivity.
Qed.

(** X8. The server version and the feature flags reach the entry of
    [android-device] only: every other entry is the same for any two
    server versions and any two flag lists. *)
Theorem version_and_flags_reach_android_only (arr : list ServerInterceptor)
    (sv sv' : option string) (ff ff' : option (list string)) :
  semver_calls_return arr sv -> semver_calls_return arr sv' ->
  exists m m', getInterceptOptions arr sv ff = Normal m /\
    getInterceptOptions arr sv' ff' = Normal m' /\
    forall i, i <> "android-device" -> get i m = get i m'.
Proof.
  intros [m Hm]%(getInterceptOptions_returns arr sv ff)
         [m' Hm']%(getInterceptOptions_returns arr sv' ff').
  exists m, m'. split; [exact Hm|]. split; [exact Hm'|]. intros i Hne.
  destruct (get i INTERCEPT_OPTIONS) as [d|] eqn:Hd.
  - destruct (getInterceptOptions_entry _ _ _ _ _ _ Hm Hd) as (o & Ho & ->).
    destruct (getInterceptOptions_entry _ _ _ _ _ _ Hm' Hd) as (o' & Ho' & ->).
    rewrite (table_checks_read _ sv sv' _ (default [] ff') i d) in Ho;
      [congruence | exact (get_In _ _ _ Hd) | left; exact Hne].
  - assert (i ∉ keys INTERCEPT_OPTIONS) as Hnot.
    { intros [d' Hd']%get_is_Some. congruence. }
    rewrite !get_None; [reflexivity | |].
    + rewrite (mapValues_keys _ _ _ Hm'). exact Hnot.
    + rewrite (mapValues_keys _ _ _ Hm). exact Hnot.
Qed.

(** X9. An entry is supported exactly when its descriptor is client-only
    or the server reports a status for it, and its requirement check, if
    it has one, answers [true]. *)
Theorem supported_iff (arr : list ServerInterceptor) (sv : option string)
    (ff : option (list string)) :
  semver_calls_return arr sv ->
  exists m, getInterceptOptions arr sv ff = Normal m /\
    forall i d, get i INTERCEPT_OPTIONS = Some d ->
      exists o, get i m = Some o /\
        (o !! "isSupported" = Some (VBool true) <->
         (clientOnly d = true \/ is_Some (keyBy arr !! i)) /\
         match checkRequirements d with
         | Some check => check (check_options arr sv ff i) = Normal true
         | None => True
         end).
Proof.
  intros [m Hm]%(getInterceptOptions_returns arr sv ff).
  exists m. split; [exact Hm|]. intros i d Hd.
  destruct (getInterceptOptions_entry _ _ _ _ _ _ Hm Hd) as (o & Ho & Hget).
  exists o. split; [exact Hget|]. unfold check_options.
  apply resolveOption_cases in Ho
    as [[Hcond Hw] | [(Hc & Hmet & Hw) | (Hc & Hmet & s & Hs & Hw)]];
    rewrite (Hw "isSupported"); simpl.
  - split; [discriminate|]. intros [Hcalled Hmet].
    destruct Hcond as [[Hc Hs] | (check & Hcheck & Hfalse)].
    + destruct Hcalled as [Hc' | [s Hs']]; congruence.
    + rewrite Hcheck in Hmet. congruence.
  - split; [|reflexivity]. intros _. split; [left; exact Hc | exact Hmet].
  - split; [|reflexivity]. intros _. split; [right; eauto | exact Hmet].
Qed.

(** X10. An entry is active only when it is supported and the server
    reports it active; it is activable only when it is supported and
    either client-only or reported activable by the server. *)
Theorem active_only_by_server (arr : list ServerInterceptor) (sv : option string)
    (ff : option (list string)) :
  semver_calls_return arr sv ->
  exists m, getInterceptOptions arr sv ff = Normal m /\
    forall i d o, get i INTERCEPT_OPTIONS = Some d -> get i m = Some o ->
      (o !! "isActive" = Some (VBool true) ->
       o !! "isSupported" = Some (VBool true) /\ clientOnly d = false /\
       exists s, keyBy arr !! i = Some s /\ isActive s = true) /\
      (o !! "isActivable" = Some (VBool true) ->
       o !! "isSupported" = Some (VBool true) /\
       (clientOnly d = true \/
        exists s, keyBy arr !! i = Some s /\ isActivable s = true)).
Proof.
  intros [m Hm]%(getInterceptOptions_returns arr sv ff).
  exists m. split; [exact Hm|]. intros i d o Hd Hget.
  destruct (getInterceptOptions_entry _ _ _ _ _ _ Hm Hd) as (o' & Ho & Hget').
  rewrite Hget in Hget'. injection Hget' as <-.
  apply resolveOption_cases in Ho
    as [[_ Hw] | [(Hc & _ & Hw) | (Hc & _ & s & Hs & Hw)]];
    rewrite (Hw "isSupported"), (Hw "isActive"), (Hw "isActivable");
    simpl; rewrite ?server_properties_lookup; simpl.
  - split; discriminate.
  - split; [discriminate | intros _; split; [reflexivity | left; exact Hc]].
  - split.
    + intros [= Hactive]. split; [reflexivity|]. split; [exact Hc|]. eauto.
    + intros [= Hactivable]. split; [reflexivity|]. right. eauto.
Qed.

(** X11. An entry has a [version] exactly when it is supported and not
    client-only, and it is then the version of the matching server status:
    an unsupported entry does not show the version the server reported. *)
Theorem version_of_supported_only (arr : list ServerInterceptor)
    (sv : option string) (ff : option (list string)) :
  semver_calls_return arr sv ->
  exists m, getInterceptOptions arr sv ff = Normal m /\
    forall i d o v, get i INTERCEPT_OPTIONS = Some d -> get i m = Some o ->
      (o !! "version" = Some v <->
       o !! "isSupported" = Some (VBool true) /\ clientOnly d = false /\
       exists s, keyBy arr !! i = Some s /\ v = VString (version s)).
Proof.
  intros [m Hm]%(getInterceptOptions_returns arr sv ff).
  exists m. split; [exact Hm|]. intros i d o v Hd Hget.
  destruct (getInterceptOptions_entry _ _ _ _ _ _ Hm Hd) as (o' & Ho & Hget').
  rewrite Hget in Hget'. injection Hget' as <-.
  apply resolveOption_cases in Ho
    as [[_ Hw] | [(Hc & _ & Hw) | (Hc & _ & s & Hs & Hw)]];
    rewrite (Hw "isSupported"), (Hw "version");
    simpl; rewrite ?server_properties_lookup, ?config_properties_no_version;
    simpl.
  - split; [discriminate | intros [[=] _]].
  - split; [discriminate | intros (_ & Hc' & _); congruence].
  - split.
    + intros [= <-]. split; [reflexivity|]. split; [exact Hc|]. eauto.
    + intros (_ & _ & s' & Hs' & ->). congruence.
Qed.

(** X12. Every entry carries its key as [id] and every property of its
    descriptor; a descriptor property other than the four computed fields
    keeps the descriptor's value unless the matching server status has a
    property of the same name. *)
Theorem descriptor_properties_kept (arr : list ServerInterceptor)
    (sv : option string) (ff : option (list string)) :
  semver_calls_return arr sv ->
  exists m, getInterceptOptions arr sv ff = Normal m /\
    forall i d o, get i INTERCEPT_OPTIONS = Some d -> get i m = Some o ->
      o !! "id" = Some (VString i) /\
      (forall k, is_Some (config_properties d !! k) -> is_Some (o !! k)) /\
      (forall k, k ∉ ["id"; "isSupported"; "isActive"; "isActivable"] ->
         (forall s, keyBy arr !! i = Some s -> server_properties s !! k = None) ->
         o !! k = config_properties d !! k).
Proof.
  intros [m Hm]%(getInterceptOptions_returns arr sv ff).
  exists m. split; [exact Hm|]. intros i d o Hd Hget.
  destruct (getInterceptOptions_entry _ _ _ _ _ _ Hm Hd) as (o' & Ho & Hget').
  rewrite Hget in Hget'. injection Hget' as <-.
  apply resolveOption_cases in Ho
    as [[_ Hw] | [(Hc & _ & Hw) | (Hc & _ & s & Hs & Hw)]].
  1, 2: split; [rewrite (Hw "id"); reflexivity|]; split;
    [ intros k Hk; rewrite (Hw k); destruct (get k _); eauto
    | intros k Hk _; rewrite (Hw k), get_None; [reflexivity | exact Hk] ].
  split; [rewrite (Hw "id"); reflexivity|]. split.
  - intros k Hk. rewrite (Hw k).
    destruct (get k _); [eauto|]. destruct (server_properties s !! k); eauto.
  - intros k Hk Hserver. rewrite (Hw k), (Hserver s Hs), get_None; [reflexivity|].
    unfold supported_fields. cbn [keys map fst].
    revert Hk. rewrite !not_elem_of_cons. tauto.
Qed.

(** X13. The entry of [android-device] is supported exactly when
    [semver.satisfies] accepts the server version (the empty string when
    there is none) for [DETAILED_CONFIG_RANGE] and ['android'] is among the
    feature flags; it is activable exactly when it is supported, and never
    active. *)
Theorem android_supported_iff (arr : list ServerInterceptor) (sv : option string)
    (ff : option (list string)) :
  semver_calls_return arr sv ->
  exists m o, getInterceptOptions arr sv ff = Normal m /\
    get "android-device" m = Some o /\
    (o !! "isSupported" = Some (VBool true) <->
     satisfies (Some (or_empty sv)) DETAILED_CONFIG_RANGE = Normal true /\
     "android" ∈ default [] ff) /\
    o !! "isActivable" = o !! "isSupported" /\
    o !! "isActive" = Some (VBool false).
Proof.
  intros Hret. pose proof Hret as [[inRange Hrange] _].
  apply (getInterceptOptions_returns arr sv ff) in Hret as [m Hm].
  destruct (getInterceptOptions_entry _ _ _ _ "android-device" _ Hm eq_refl)
    as (o & Ho & Hget).
  exists m, o. split; [exact Hm|]. split; [exact Hget|].
  apply resolveOption_cases in Ho
    as [[[[[=] _] | (check & [= <-] & Hfalse)] Hw]
       | [(_ & Hmet & Hw) | ([=] & _)]];
    rewrite (Hw "isSupported"), (Hw "isActivable"), (Hw "isActive"); simpl;
    (split; [|split; reflexivity]).
  - simpl in Hfalse. rewrite Hrange in Hfalse. simpl in Hfalse.
    injection Hfalse as Hfalse. split; [discriminate|].
    intros [Htrue Hin]. rewrite Hrange in Htrue. injection Htrue as ->.
    rewrite (includes_true _ _ Hin) in Hfalse. discriminate.
  - simpl in Hmet. rewrite Hrange in Hmet. simpl in Hmet.
    injection Hmet as Hmet. apply andb_true_iff in Hmet as [-> Hincludes].
    split; [|reflexivity]. intros _. split; [exact Hrange|].
    destruct (decide ("android" ∈ default [] ff)) as [Hin | Hnot]; [exact Hin|].
    rewrite (includes_false _ _ Hnot) in Hincludes. discriminate.
Qed.

(** X14. The entry of [electron] is supported exactly when the server
    reports an [electron] status whose version [semver.satisfies] accepts
    for [^1.0.1]; its [isActive] and [isActivable] are then those of that
    status, and [false] otherwise. *)
Theorem electron_supported_iff (arr : list ServerInterceptor) (sv : option string)
    (ff : option (list string)) :
  semver_calls_return arr sv ->
  exists m o, getInterceptOptions arr sv ff = Normal m /\
    get "electron" m = Some o /\
    (o !! "isSupported" = Some (VBool true) <->
     exists s, keyBy arr !! "electron" = Some s /\
       satisfies (Some (version s)) "^1.0.1" = Normal true) /\
    (forall s, keyBy arr !! "electron" = Some s ->
       satisfies (Some (version s)) "^1.0.1" = Normal true ->
       o !! "isActive" = Some (VBool (isActive s)) /\
       o !! "isActivable" = Some (VBool (isActivable s))) /\
    (o !! "isSupported" = Some (VBool false) ->
     o !! "isActive" = Some (VBool false) /\
     o !! "isActivable" = Some (VBool false)).
Proof.
  intros [m Hm]%(getInterceptOptions_returns arr sv ff).
  destruct (getInterceptOptions_entry _ _ _ _ "electron" _ Hm eq_refl)
    as (o & Ho & Hget).
  exists m, o. split; [exact Hm|]. split; [exact Hget|].
  apply resolveOption_cases in Ho
    as [[[[_ Hs] | (check & [= <-] & Hfalse)] Hw]
       | [([=] & _) | (_ & Hmet & s & Hs & Hw)]];
    rewrite (Hw "isSupported"), (Hw "isActivable"), (Hw "isActive"); simpl;
    rewrite ?server_properties_lookup; simpl.
  - split; [split; [discriminate | intros (s & Hs' & _); congruence]|].
    split; [intros s Hs'; congruence | intros _; split; reflexivity].
  - simpl in Hfalse.
    split; [split; [discriminate|]|].
    + intros (s & Hs & Htrue). rewrite Hs in Hfalse. simpl in Hfalse. congruence.
    + split; [|intros _; split; reflexivity].
      intros s Hs Htrue. rewrite Hs in Hfalse. simpl in Hfalse. congruence.
  - simpl in Hmet. rewrite Hs in Hmet. simpl in Hmet.
    split; [split; [intros _; eauto | reflexivity]|].
    split; [|discriminate].
    intros s' Hs' _. rewrite Hs in Hs'. injection Hs' as <-. split; reflexivity.
Qed.

End Interceptors.

(** ** The module run with the semver instance *)

(** C5. The requirement check of [electron] is
    [semver.satisfies(interceptorVersion, "^1.0.1")].  With the server
    status [{id: 'electron', version: '1.0.0', ...}] the entry of
    [electron] has [isSupported: false]; with version ['1.0.2'] it has
    [isSupported: true] and the [isActive] and [isActivable] of the
    status. *)
Theorem electron_requirement :
  (forall satisfies range options,
     exists d check,
       get "electron" (INTERCEPT_OPTIONS satisfies range) = Some d /\
       checkRequirements d = Some check /\
       check options = satisfies (interceptorVersion options) "^1.0.1") /\
  Semver.satisfies (Some "1.0.0") "^1.0.1" = Normal false /\
  Semver.satisfies (Some "1.0.2") "^1.0.1" = Normal true /\
  forall range sv ff active activable more,
    (exists m o,
       getInterceptOptions Semver.satisfies range
         [ {| id := "electron"; version := "1.0.0"; isActive := active;
              isActivable := activable; extra := more |} ] sv ff = Normal m /\
       get "electron" m = Some o /\
       o !! "isSupported" = Some (VBool false) /\
       o !! "isActive" = Some (VBool false) /\
       o !! "isActivable" = Some (VBool false)) /\
    (exists m o,
       getInterceptOptions Semver.satisfies range
         [ {| id := "electron"; version := "1.0.2"; isActive := active;
              isActivable := activable; extra := more |} ] sv ff = Normal m /\
       get "electron" m = Some o /\
       o !! "isSupported" = Some (VBool true) /\
       o !! "isActive" = Some (VBool active) /\
       o !! "isActivable" = Some (VBool activable)).
Proof.
  split; [intros; do 2 eexists; split_and!; reflexivity|].
  split; [reflexivity|]. split; [reflexivity|].
  intros range sv ff active activable more. split.
  - set (s := {| id := "electron"; version := "1.0.0" |}).
    destruct (proj2 (getInterceptOptions_returns Semver.satisfies range [s] sv ff))
      as [m Hm]; [semver_returns|].
    destruct (getInterceptOptions_entry _ _ _ _ _ _ "electron" _ Hm eq_refl)
      as (o & Ho & Hget).
    match type of Ho with resolveOption ?servers _ _ ?config _ = _ =>
      destruct (resolveOption_unmet servers sv (default [] ff) config
                  "electron" _ eq_refl) as (o' & Ho' & Hw)
    end.
    { unfold keyBy. simpl. rewrite lookup_insert_eq. reflexivity. }
    same_result Ho Ho'. exists m, o. split; [exact Hm|]. split; [exact Hget|].
    split_and!; [rewrite (Hw "isSupported") | rewrite (Hw "isActive")
                | rewrite (Hw "isActivable")]; reflexivity.
  - set (s := {| id := "electron"; version := "1.0.2" |}).
    destruct (proj2 (getInterceptOptions_returns Semver.satisfies range [s] sv ff))
      as [m Hm]; [semver_returns|].
    destruct (getInterceptOptions_entry _ _ _ _ _ _ "electron" _ Hm eq_refl)
      as (o & Ho & Hget).
    assert (keyBy [s] !! "electron" = Some s) as Hs
      by (unfold keyBy; simpl; apply lookup_insert_eq).
    match type of Ho with resolveOption ?servers _ _ ?config _ = _ =>
      destruct (resolveOption_server servers sv (default [] ff) config
                  "electron" s eq_refl Hs) as (o' & Ho' & Hw)
    end.
    { simpl. rewrite Hs. reflexivity. }
    same_result Ho Ho'. exists m, o. split; [exact Hm|]. split; [exact Hget|].
    split_and!;
      match goal with |- o !! ?k = _ => rewrite (Hw k) end;
      simpl; rewrite ?server_properties_lookup; reflexivity.
Qed.

(** ** The theorems at concrete inputs

    [DETAILED_CONFIG_RANGE] is not defined in this module; the caret range
    ["^1.0.0"] stands for it below. *)

Lemma getInterceptOptions_keys_witness :
  exists m,
    getInterceptOptions Semver.satisfies "^1.0.0"
      [status "docker-all" "1.2.0" true false;
       status "not-in-the-table" "0.1.0" true true]
      (Some "1.0.0") (Some ["android"]) = Normal m /\
    keys m =
      ["docker-all"; "docker-specific"; "fresh-chrome"; "fresh-firefox";
       "fresh-safari"; "fresh-edge"; "fresh-terminal"; "existing-terminal";
       "electron"; "android-device"; "ios-device"; "network-device";
       "virtualbox-machine"; "system-proxy"; "manual-setup"] /\
    get "not-in-the-table" m = None.
Proof.
  destruct (getInterceptOptions_keys Semver.satisfies "^1.0.0"
              [status "docker-all" "1.2.0" true false;
               status "not-in-the-table" "0.1.0" true true]
              (Some "1.0.0") (Some ["android"]))
    as (m & Hm & Hkeys & _ & Hunknown); [semver_returns|].
  exists m. split; [exact Hm|]. split; [exact Hkeys|].
  apply (Hunknown (status "not-in-the-table" "0.1.0" true true)).
  - right. left.
  - intros H%list_elem_of_In. simpl in H. intuition discriminate.
Defined.

Lemma unsupported_entry_witness :
  exists m o,
    getInterceptOptions Semver.satisfies "^1.0.0"
      [status "electron" "1.0.0" true true] None None = Normal m /\
    get "electron" m = Some o /\
    o !! "id" = Some (VString "electron") /\
    o !! "isSupported" = Some (VBool false) /\
    o !! "isActive" = Some (VBool false) /\
    o !! "isActivable" = Some (VBool false) /\
    o !! "name" = Some (VString "Electron Application").
Proof.
  destruct (unsupported_entry Semver.satisfies "^1.0.0"
              [status "electron" "1.0.0" true true] None None)
    as (m & Hm & Hentry & _); [semver_returns|].
  destruct (Hentry "electron" _ eq_refl) as (o & Hget & Hw).
  { right. eexists. split; reflexivity. }
  exists m, o. split; [exact Hm|]. split; [exact Hget|].
  split_and!; match goal with |- o !! ?k = _ => rewrite (Hw k) end; reflexivity.
Defined.

Lemma client_only_entry_witness :
  exists m o o',
    getInterceptOptions Semver.satisfies "^1.0.0" []
      (Some "1.0.0") (Some ["android"]) = Normal m /\
    get "android-device" m = Some o /\
    o !! "isSupported" = Some (VBool true) /\
    o !! "isActive" = Some (VBool false) /\
    o !! "isActivable" = Some (VBool true) /\
    get "manual-setup" m = Some o' /\
    o' !! "isSupported" = Some (VBool true) /\
    o' !! "isActive" = Some (VBool false) /\
    o' !! "isActivable" = Some (VBool true).
Proof.
  destruct (client_only_entry Semver.satisfies "^1.0.0" []
              (Some "1.0.0") (Some ["android"]))
    as (m & Hm & Hentry); [semver_returns|].
  destruct (Hentry "android-device" _ eq_refl eq_refl)
    as (o & Hget & _ & _ & Hsupported & Hactive & Hactivable).
  { right. eexists. split; reflexivity. }
  destruct (Hentry "manual-setup" _ eq_refl eq_refl)
    as (o' & Hget' & _ & _ & Hsupported' & Hactive' & Hactivable').
  { left. reflexivity. }
  exists m, o, o'. split_and!; assumption.
Defined.

Lemma server_backed_entry_witness :
  exists m o,
    getInterceptOptions Semver.satisfies "^1.0.0"
      [status "docker-all" "x" true true] None None = Normal m /\
    get "docker-all" m = Some o /\
    o !! "isSupported" = Some (VBool true) /\
    o !! "isActive" = Some (VBool true) /\
    o !! "isActivable" = Some (VBool true).
Proof.
  destruct (server_backed_entry Semver.satisfies "^1.0.0"
              [status "docker-all" "x" true true] None None)
    as (m & Hm & _ & Hdocker); [semver_returns|].
  destruct (Hdocker ∅ eq_refl) as (o & Hget & H).
  exists m, o. split; [exact Hm|]. split; [exact Hget | exact H].
Defined.

Lemma android_requires_flag_witness :
  exists m o,
    getInterceptOptions Semver.satisfies "^1.0.0"
      [status "android-device" "1.0.0" true true]
      (Some "1.0.0") (Some ["ios"]) = Normal m /\
    get "android-device" m = Some o /\
    o !! "isSupported" = Some (VBool false) /\
    o !! "isActive" = Some (VBool false) /\
    o !! "isActivable" = Some (VBool false).
Proof.
  destruct (android_requires_flag Semver.satisfies "^1.0.0"
              [status "android-device" "1.0.0" true true]
              (Some "1.0.0") (Some ["ios"]))
    as (m & Hm & d & o & _ & Hget & _ & H); [semver_returns | |].
  { intros H%list_elem_of_In. simpl in H. intuition discriminate. }
  exists m, o. split; [exact Hm|]. split; [exact Hget | exact H].
Defined.

Lemma getInterceptOptions_exceptions_witness :
  returns (getInterceptOptions Semver.satisfies "^1.0.0" [] None None) /\
  exists m d o,
    getInterceptOptions Semver.satisfies "^1.0.0" [] None None = Normal m /\
    get "android-device" (INTERCEPT_OPTIONS Semver.satisfies "^1.0.0") = Some d /\
    get "android-device" m = Some o /\
    with_fields (config_properties d) (unsupported_fields "android-device") o.
Proof.
  destruct (getInterceptOptions_exceptions Semver.satisfies "^1.0.0" [] None None)
    as (Hreturns & _ & _ & _ & Habsent).
  { intros range. split; reflexivity. }
  split.
  - apply Hreturns. semver_returns.
  - apply Habsent; [reflexivity|]. intros s [=].
Defined.

Lemma last_status_wins_witness :
  keyBy [status "docker-all" "x" true true; status "docker-all" "y" false true]
    !! "docker-all" = Some (status "docker-all" "y" false true) /\
  exists m o,
    getInterceptOptions Semver.satisfies "^1.0.0"
      [status "docker-all" "x" true true; status "docker-all" "y" false true]
      None None = Normal m /\
    get "docker-all" m = Some o /\
    o !! "version" = Some (VString "y") /\
    o !! "isActive" = Some (VBool false).
Proof.
  destruct (last_status_wins Semver.satisfies "^1.0.0"
              [status "docker-all" "x" true true; status "docker-all" "y" false true]
              None None)
    as (Hindex & _ & m & Hm & Hentry & _); [semver_returns|].
  split; [rewrite Hindex; reflexivity|].
  destruct (Hentry "docker-all" _ (status "docker-all" "y" false true) eq_refl eq_refl)
    as (o & Hget & Ho).
  match type of Ho with resolveOption ?servers ?sv ?flags ?config ?i = _ =>
    destruct (resolveOption_server servers sv flags config i
                (status "docker-all" "y" false true) eq_refl
                (lookup_singleton_eq _ _) I) as (o' & Ho' & Hw)
  end.
  same_result Ho Ho'. exists m, o. split; [exact Hm|]. split; [exact Hget|].
  split; match goal with |- o !! ?k = _ => rewrite (Hw k) end; reflexivity.
Defined.

Lemma unsupported_is_inactive_witness :
  exists m,
    getInterceptOptions Semver.satisfies "^1.0.0"
      [status "electron" "1.0.0" true true; status "fresh-chrome" "1.0.0" true true]
      (Some "1.0.0") None = Normal m /\
    forall i o, get i m = Some o ->
      (exists b, o !! "isSupported" = Some (VBool b)) /\
      (o !! "isSupported" = Some (VBool false) ->
       o !! "isActive" = Some (VBool false) /\
       o !! "isActivable" = Some (VBool false)).
Proof.
  apply (unsupported_is_inactive Semver.satisfies "^1.0.0"
           [status "electron" "1.0.0" true true;
            status "fresh-chrome" "1.0.0" true true]
           (Some "1.0.0") None).
  semver_returns.
Defined.

Lemma client_only_ignores_server_witness :
  exists m m' o o',
    getInterceptOptions Semver.satisfies "^1.0.0" []
      (Some "1.0.0") (Some ["android"]) = Normal m /\
    getInterceptOptions Semver.satisfies "^1.0.0"
      [status "android-device" "9.9.9" true true;
       status "manual-setup" "9.9.9" true true]
      (Some "1.0.0") (Some ["android"]) = Normal m' /\
    get "android-device" m = Some o /\ get "android-device" m' = Some o /\
    o !! "isActive" = Some (VBool false) /\ o !! "version" = None /\
    get "manual-setup" m = Some o' /\ get "manual-setup" m' = Some o' /\
    o' !! "isActive" = Some (VBool false) /\ o' !! "version" = None.
Proof.
  destruct (client_only_ignores_server Semver.satisfies "^1.0.0" []
              [status "android-device" "9.9.9" true true;
               status "manual-setup" "9.9.9" true true]
              (Some "1.0.0") (Some ["android"]))
    as (m & m' & Hm & Hm' & Hentry); [semver_returns | semver_returns |].
  destruct (Hentry "android-device" _ eq_refl) as [_ Handroid].
  destruct (Handroid eq_refl) as (o & Hget & Hget' & Hactive & Hversion & _).
  destruct (Hentry "manual-setup" _ eq_refl) as [_ Hmanual].
  destruct (Hmanual eq_refl) as (o' & Hgeto & Hgeto' & Hactive' & Hversion' & _).
  exists m, m', o, o'. split_and!; assumption.
Defined.

(** C7 as the specification states it fails on [android-device]: the
    descriptor has a requirement check, the server reports no status for
    it, the check is handed an absent interceptor version, and yet the
    entry is supported, because the check reads the server version and the
    feature flags only. *)
Lemma check_without_status_can_pass :
  exists m d check o,
    getInterceptOptions Semver.satisfies "^1.0.0" []
      (Some "1.0.0") (Some ["android"]) = Normal m /\
    get "android-device" (INTERCEPT_OPTIONS Semver.satisfies "^1.0.0") = Some d /\
    checkRequirements d = Some check /\
    keyBy [] !! "android-device" = None /\
    interceptorVersion
      (check_options [] (Some "1.0.0") (Some ["android"]) "android-device") = None /\
    check (check_options [] (Some "1.0.0") (Some ["android"]) "android-device")
      = Normal true /\
    get "android-device" m = Some o /\
    o !! "isSupported" = Some (VBool true) /\
    o !! "isActivable" = Some (VBool true).
Proof.
  destruct (proj2 (getInterceptOptions_returns Semver.satisfies "^1.0.0" []
                     (Some "1.0.0") (Some ["android"])))
    as [m Hm]; [semver_returns|].
  destruct (getInterceptOptions_entry _ _ _ _ _ _ "android-device" _ Hm eq_refl)
    as (o & Ho & Hget).
  match type of Ho with resolveOption ?servers ?sv ?flags ?config ?i = _ =>
    destruct (resolveOption_client_only servers sv flags config i eq_refl)
      as (o' & Ho' & Hw); [reflexivity|];
    exists m, config
  end.
  same_result Ho Ho'. eexists. exists o.
  split_and!; try reflexivity; try assumption;
    match goal with |- o !! ?k = _ => rewrite (Hw k) end; reflexivity.
Qed.

(** ** The further properties at concrete inputs *)

Lemma entry_depends_on_own_status_witness :
  exists m m',
    getInterceptOptions Semver.satisfies "^1.0.0"
      [status "docker-all" "x" true true; status "fresh-chrome" "1.0.0" true true]
      None None = Normal m /\
    getInterceptOptions Semver.satisfies "^1.0.0"
      [status "fresh-firefox" "2.0.0" false false; status "docker-all" "x" true true]
      None None = Normal m' /\
    get "docker-all" m = get "docker-all" m'.
Proof.
  apply (entry_depends_on_own_status Semver.satisfies "^1.0.0"
           [status "docker-all" "x" true true;
            status "fresh-chrome" "1.0.0" true true]
           [status "fresh-firefox" "2.0.0" false false;
            status "docker-all" "x" true true]
           None None "docker-all");
    [semver_returns | semver_returns | reflexivity].
Defined.

Lemma later_statuses_supersede_witness :
  getInterceptOptions Semver.satisfies "^1.0.0"
    ([status "docker-all" "x" true true] ++
     [status "docker-all" "y" false true; status "electron" "1.0.2" true true])
    None None =
  getInterceptOptions Semver.satisfies "^1.0.0"
    [status "docker-all" "y" false true; status "electron" "1.0.2" true true]
    None None.
Proof.
  apply (later_statuses_supersede Semver.satisfies "^1.0.0").
  intros s Hs%list_elem_of_In. simpl in Hs. destruct Hs as [<- | []].
  exists (status "docker-all" "y" false true). split; [left | reflexivity].
Defined.

Lemma order_of_statuses_irrelevant_witness :
  getInterceptOptions Semver.satisfies "^1.0.0"
    [status "docker-all" "x" true true; status "electron" "1.0.2" true false]
    None None =
  getInterceptOptions Semver.satisfies "^1.0.0"
    [status "electron" "1.0.2" true false; status "docker-all" "x" true true]
    None None.
Proof.
  apply (order_of_statuses_irrelevant Semver.satisfies "^1.0.0").
  - apply (bool_decide_unpack _). vm_compute. reflexivity.
  - apply perm_swap.
Defined.

Lemma only_android_flag_is_read_witness :
  getInterceptOptions Semver.satisfies "^1.0.0" [] (Some "1.0.0")
    (Some ["android"; "ios"]) =
  getInterceptOptions Semver.satisfies "^1.0.0" [] (Some "1.0.0")
    (Some ["beta"; "android"]).
Proof.
  apply (only_android_flag_is_read Semver.satisfies "^1.0.0").
  split; intros _; apply list_elem_of_In; simpl; auto.
Defined.

Lemma version_and_flags_reach_android_only_witness :
  exists m m',
    getInterceptOptions Semver.satisfies "^1.0.0"
      [status "docker-all" "x" true true] (Some "1.0.0") (Some ["android"])
      = Normal m /\
    getInterceptOptions Semver.satisfies "^1.0.0"
      [status "docker-all" "x" true true] None None = Normal m' /\
    forall i, i <> "android-device" -> get i m = get i m'.
Proof.
  apply (version_and_flags_reach_android_only Semver.satisfies "^1.0.0");
    semver_returns.
Defined.

Lemma supported_iff_witness :
  exists m o,
    getInterceptOptions Semver.satisfies "^1.0.0"
      [status "fresh-chrome" "not a version" false false] None None = Normal m /\
    get "fresh-chrome" m = Some o /\
    o !! "isSupported" = Some (VBool true).
Proof.
  destruct (supported_iff Semver.satisfies "^1.0.0"
              [status "fresh-chrome" "not a version" false false] None None)
    as (m & Hm & Hentry); [semver_returns|].
  destruct (Hentry "fresh-chrome" _ eq_refl) as (o & Hget & Hiff).
  exists m, o. split; [exact Hm|]. split; [exact Hget|].
  apply Hiff. split; [right; eexists; reflexivity | exact I].
Defined.

Lemma active_only_by_server_witness :
  exists m,
    getInterceptOptions Semver.satisfies "^1.0.0"
      [status "electron" "1.0.0" true true; status "fresh-chrome" "1.0.0" true false]
      None None = Normal m /\
    forall i d o,
      get i (INTERCEPT_OPTIONS Semver.satisfies "^1.0.0") = Some d ->
      get i m = Some o ->
      (o !! "isActive" = Some (VBool true) ->
       o !! "isSupported" = Some (VBool true) /\ clientOnly d = false /\
       exists s,
         keyBy [status "electron" "1.0.0" true true;
                status "fresh-chrome" "1.0.0" true false] !! i = Some s /\
         isActive s = true) /\
      (o !! "isActivable" = Some (VBool true) ->
       o !! "isSupported" = Some (VBool true) /\
       (clientOnly d = true \/
        exists s,
          keyBy [status "electron" "1.0.0" true true;
                 status "fresh-chrome" "1.0.0" true false] !! i = Some s /\
          isActivable s = true)).
Proof.
  apply (active_only_by_server Semver.satisfies "^1.0.0"). semver_returns.
Defined.

Lemma version_of_supported_only_witness :
  exists m o o',
    getInterceptOptions Semver.satisfies "^1.0.0"
      [status "electron" "1.0.0" true true; status "fresh-chrome" "81.0.0" true true]
      None None = Normal m /\
    get "electron" m = Some o /\ o !! "version" = None /\
    get "fresh-chrome" m = Some o' /\ o' !! "version" = Some (VString "81.0.0").
Proof.
  destruct (version_of_supported_only Semver.satisfies "^1.0.0"
              [status "electron" "1.0.0" true true;
               status "fresh-chrome" "81.0.0" true true] None None)
    as (m & Hm & Hversion); [semver_returns|].
  destruct (getInterceptOptions_entry _ _ _ _ _ _ "electron" _ Hm eq_refl)
    as (o & Ho & Hget).
  destruct (getInterceptOptions_entry _ _ _ _ _ _ "fresh-chrome" _ Hm eq_refl)
    as (o' & Ho' & Hget').
  exists m, o, o'. split; [exact Hm|]. split; [exact Hget|]. split.
  - destruct (o !! "version") as [v|] eqn:Hv; [|reflexivity].
    apply (Hversion "electron" _ o v eq_refl Hget) in Hv as (Hsupported & _).
    match type of Ho with resolveOption ?servers ?sv ?flags ?config ?i = _ =>
      destruct (resolveOption_unmet servers sv flags config i _ eq_refl eq_refl)
        as (o2 & Ho2 & Hw)
    end.
    same_result Ho Ho2. rewrite (Hw "isSupported") in Hsupported. discriminate.
  - split; [exact Hget'|].
    apply (Hversion "fresh-chrome" _ o' _ eq_refl Hget').
    match type of Ho' with resolveOption ?servers ?sv ?flags ?config ?i = _ =>
      destruct (resolveOption_server servers sv flags config i
                  (status "fresh-chrome" "81.0.0" true true) eq_refl eq_refl I)
        as (o2 & Ho2 & Hw)
    end.
    same_result Ho' Ho2. split; [rewrite (Hw "isSupported"); reflexivity|].
    split; [reflexivity|]. eexists. split; reflexivity.
Defined.

Lemma descriptor_properties_kept_witness :
  exists m o,
    getInterceptOptions Semver.satisfies "^1.0.0"
      [status "docker-all" "x" true true] None None = Normal m /\
    get "docker-all" m = Some o /\
    o !! "id" = Some (VString "docker-all") /\
    o !! "name" = Some (VString "All Docker Containers") /\
    o !! "tags" = Some (VStrings DOCKER_TAGS).
Proof.
  destruct (descriptor_properties_kept Semver.satisfies "^1.0.0"
              [status "docker-all" "x" true true] None None)
    as (m & Hm & Hkept); [semver_returns|].
  destruct (getInterceptOptions_entry _ _ _ _ _ _ "docker-all" _ Hm eq_refl)
    as (o & _ & Hget).
  destruct (Hkept "docker-all" _ o eq_refl Hget) as (Hid & _ & Hvalue).
  exists m, o. split; [exact Hm|]. split; [exact Hget|]. split; [exact Hid|].
  split; (rewrite Hvalue; [reflexivity | |]);
    try (intros H%list_elem_of_In; simpl in H; intuition discriminate);
    intros s [= <-]; reflexivity.
Defined.

Lemma android_supported_iff_witness :
  exists m o,
    getInterceptOptions Semver.satisfies "^1.0.0" []
      (Some "1.4.2") (Some ["android"]) = Normal m /\
    get "android-device" m = Some o /\
    o !! "isSupported" = Some (VBool true) /\
    o !! "isActivable" = Some (VBool true) /\
    o !! "isActive" = Some (VBool false).
Proof.
  destruct (android_supported_iff Semver.satisfies "^1.0.0" []
              (Some "1.4.2") (Some ["android"]))
    as (m & o & Hm & Hget & Hiff & Hactivable & Hactive); [semver_returns|].
  assert (o !! "isSupported" = Some (VBool true)) as Hsupported.
  { apply Hiff. split; [reflexivity | left]. }
  exists m, o. split_and!; congruence.
Defined.

Lemma electron_supported_iff_witness :
  exists m o,
    getInterceptOptions Semver.satisfies "^1.0.0"
      [status "electron" "1.3.0" true false] None None = Normal m /\
    get "electron" m = Some o /\
    o !! "isSupported" = Some (VBool true) /\
    o !! "isActive" = Some (VBool true) /\
    o !! "isActivable" = Some (VBool false).
Proof.
  destruct (electron_supported_iff Semver.satisfies "^1.0.0"
              [status "electron" "1.3.0" true false] None None)
    as (m & o & Hm & Hget & Hiff & Hflags & _); [semver_returns|].
  exists m, o. split; [exact Hm|]. split; [exact Hget|]. split.
  - apply Hiff. eexists. split; reflexivity.
  - exact (Hflags (status "electron" "1.3.0" true false) eq_refl eq_refl).
Defined.
